(** * t3kd3t: the code-quality analysis engine

    A shallow embedding of [src/lib/codeAnalysis.ts] (the analysis engine:
    [analyzeCode], [getAllFiles], [calculateBasicComplexity],
    [calculateBasicMaintainability], [calculateOverallScore]) and of the
    scoring helpers of [src/app/api/analyze/route.ts]
    ([calculateOverallScore], [getHealthStatus], [countCriticalIssues],
    [generateRecommendations]).

    Conventions of the embedding:
    - a JavaScript string that holds file text is a list of UTF-16 code
      units ([N]); paths, messages and labels are Rocq strings;
    - a JavaScript [number] is a rational ([Q]); the per-file metrics are
      quotients of small integers and are kept exact, while the overall
      score of route.ts, where the last bit of a sum decides the rounded
      integer, is computed in binary64 arithmetic ([JS.double]);
    - paths are joined as [path.join] does on POSIX;
    - the file system is a finite tree of directory entries, each directory
      listing its entries in the order [readdirSync] returns them;
    - a thrown exception / rejected promise is the [Rejected] outcome. *)

From Stdlib Require Import List String Ascii Bool Arith ZArith NArith.
From Stdlib Require Import QArith Qround Qminmax Lia Lqa.
Import ListNotations.

Set Warnings "-register-all".
Local Open Scope string_scope.
Local Open Scope list_scope.

(** ** JavaScript values used by the engine *)

Module JS.

Definition codeUnit := N.
Definition jsString := list codeUnit.

(** A string literal of the source, as code units. *)
Definition lit (s : string) : jsString :=
  map N_of_ascii (list_ascii_of_string s).

(** [\s] of an ECMAScript regular expression: WhiteSpace and
    LineTerminator code points. *)
Definition isWhiteSpace (c : codeUnit) : bool :=
  ((9 <=? c) && (c <=? 13) || (c =? 32) || (c =? 160) || (c =? 5760)
   || (8192 <=? c) && (c <=? 8202) || (c =? 8232) || (c =? 8233)
   || (c =? 8239) || (c =? 8287) || (c =? 12288) || (c =? 65279))%N.

(** [\w]: [A-Za-z0-9_]. *)
Definition isWordChar (c : codeUnit) : bool :=
  ((65 <=? c) && (c <=? 90) || (97 <=? c) && (c <=? 122)
   || (48 <=? c) && (c <=? 57) || (c =? 95))%N.

Definition LF : codeUnit := 10%N.

(** [lines.join('\n')], to write texts of several lines. *)
Fixpoint text (lines : list string) : jsString :=
  match lines with
  | [] => []
  | l :: ls =>
      match ls with
      | [] => lit l
      | _ :: _ => lit l ++ LF :: text ls
      end
  end.

(** [content.split('\n')]: the pieces between line feeds; the empty string
    splits into one empty line. *)
Fixpoint split (s : jsString) : list jsString :=
  match s with
  | [] => [[]]
  | c :: r =>
      if (c =? LF)%N then [] :: split r
      else match split r with
           | l :: ls => (c :: l) :: ls
           | [] => [[c]]
           end
  end.

(** *** Regular-expression pieces

    A matcher tries to match at the start of its input and returns the rest
    of the input after the match.  The patterns of the source are sequences
    of a literal, greedy runs over a character class, and a literal that is
    outside that class, so the greedy run never has to give characters
    back. *)
Definition matcher := jsString -> option jsString.

Fixpoint str (kw : jsString) : matcher :=
  fun s =>
    match kw with
    | [] => Some s
    | k :: kw' =>
        match s with
        | c :: r => if (c =? k)%N then str kw' r else None
        | [] => None
        end
    end.

(** [cls*] *)
Fixpoint star (cls : codeUnit -> bool) (s : jsString) : jsString :=
  match s with
  | c :: r => if cls c then star cls r else s
  | [] => []
  end.

(** [cls+] *)
Definition plus (cls : codeUnit -> bool) : matcher :=
  fun s =>
    match s with
    | c :: r => if cls c then Some (star cls r) else None
    | [] => None
    end.

Definition andThen (m1 m2 : matcher) : matcher :=
  fun s => match m1 s with Some r => m2 r | None => None end.

(** [[\s\S]*?\*\/]: the shortest run of any characters up to the first
    ["*/"]. *)
Fixpoint lazyUntilClose (s : jsString) : option jsString :=
  match s with
  | [] => None
  | c :: r =>
      match str (lit "*/") s with
      | Some rest => Some rest
      | None => lazyUntilClose r
      end
  end.

(** [content.match(/re/g)]: matching restarts where the previous match
    ended ([lastIndex]); after a failure it moves on by one code unit.
    [skip] counts the code units still covered by the last match.  Every
    pattern of the source matches at least two code units, so there is no
    empty match and none at the end of the input. *)
Fixpoint scan (m : matcher) (skip : nat) (s : jsString) : nat :=
  match s with
  | [] => O
  | _ :: r =>
      match skip with
      | S k => scan m k r
      | O =>
          match m s with
          | Some rest => S (scan m (Nat.pred (List.length s - List.length rest)) r)
          | None => scan m O r
          end
      end
  end.

(** [(content.match(/re/g) || []).length] *)
Definition matchCount (m : matcher) (content : jsString) : nat :=
  scan m O content.

(** Numbers. *)
Definition ofNat (n : nat) : Q := inject_Z (Z.of_nat n).

Definition Math_min (a b : Q) : Q := Qmin a b.

(** [Math.round]: the nearest integer, halves towards plus infinity. *)
Definition Math_round (x : Q) : Q := inject_Z (Qfloor (x + (1 # 2))).

(** *** Double arithmetic

    Where the last bit of a product or a sum decides the integer a score is
    rounded to, the operation is the exact one followed by rounding to the
    nearest binary64 number, ties to even.  Numbers are counted in units of
    2^-1074, the smallest subnormal; overflow to infinity is left out. *)
Definition roundHalfEven (q : Q) : Z :=
  let f := Qfloor q in
  match Qcompare (q - inject_Z f) (1 # 2) with
  | Lt => f
  | Gt => (f + 1)%Z
  | Eq => if Z.even f then f else (f + 1)%Z
  end.

Definition tiny : Z := (2 ^ 1074)%Z.

(** The exponent shift that leaves 53 significant bits. *)
Definition shiftOf (x : Q) : Z := Z.max 0 (Z.log2 (Qfloor x) - 52).

(** A non-negative number of units, rounded to 53 significant bits. *)
Definition roundScaled (x : Q) : Z :=
  (roundHalfEven (x / inject_Z (2 ^ shiftOf x)) * 2 ^ shiftOf x)%Z.

(** The binary64 number nearest to [x]. *)
Definition double (x : Q) : Q :=
  match Qcompare x 0 with
  | Eq => 0
  | Gt => Qred (inject_Z (roundScaled (x * inject_Z tiny)) / inject_Z tiny)
  | Lt => Qred (- (inject_Z (roundScaled (- x * inject_Z tiny))
                   / inject_Z tiny))
  end.

(** [a * b], [a + b] and [a - b] on doubles. *)
Definition mul64 (a b : Q) : Q := double (a * b).
Definition add64 (a b : Q) : Q := double (a + b).
Definition sub64 (a b : Q) : Q := double (a - b).

(** Outcome of an [async] function. *)
Inductive Outcome (A : Type) : Type :=
| Resolved (a : A)
| Rejected (err : string).
Arguments Resolved {A} a.
Arguments Rejected {A} err.

End JS.

(** ** src/lib/codeAnalysis.ts *)

Module CodeAnalysis.
Import JS.

(** [/if\s*\(/g], [/for\s*\(/g], [/while\s*\(/g], [/switch\s*\(/g] *)
Definition keywordParen (kw : string) : matcher :=
  andThen (str (lit kw))
          (fun s => str (lit "(") (star isWhiteSpace s)).

Definition ifCount (content : jsString) : nat :=
  matchCount (keywordParen "if") content.
Definition forCount (content : jsString) : nat :=
  matchCount (keywordParen "for") content.
Definition whileCount (content : jsString) : nat :=
  matchCount (keywordParen "while") content.
Definition switchCount (content : jsString) : nat :=
  matchCount (keywordParen "switch") content.

(** [const complexity = 1 + ifCount + forCount + whileCount + switchCount] *)
Definition baseComplexity (content : jsString) : nat :=
  1 + ifCount content + forCount content + whileCount content
  + switchCount content.

Definition calculateBasicComplexity (content : jsString) : Q :=
  let lines := split content in
  let complexity := baseComplexity content in
  Math_min 100 ((ofNat complexity / ofNat (List.length lines)) * 100).

(** [/\/\//g] *)
Definition lineCommentRe : matcher := str (lit "//").

(** [/\/\*[\s\S]*?\*\//g] *)
Definition blockCommentRe : matcher :=
  andThen (str (lit "/*")) lazyUntilClose.

(** [/function\s+\w+\s*\(/g] *)
Definition functionRe : matcher :=
  andThen (str (lit "function"))
    (andThen (plus isWhiteSpace)
       (andThen (plus isWordChar)
          (fun s => str (lit "(") (star isWhiteSpace s)))).

Definition commentCount (content : jsString) : nat :=
  matchCount lineCommentRe content + matchCount blockCommentRe content.

Definition functionCount (content : jsString) : nat :=
  matchCount functionRe content.

Definition calculateBasicMaintainability (content : jsString) : Q :=
  let lines := split content in
  let ratio := ofNat (commentCount content + functionCount content)
               / ofNat (List.length lines) in
  Math_min 100 (ratio * 100).

(** [calculateOverallScore(scores: number[])] *)
Definition calculateOverallScore (scores : list Q) : Q :=
  match scores with
  | [] => 0
  | _ => Math_round (fold_left Qplus scores 0 / ofNat (List.length scores))
  end.

(** *** The file tree [analyzeCode] walks

    [readdirSync(dir, { withFileTypes: true })] returns the entries of a
    directory in order; it throws when the directory is missing or cannot
    be read ([None]).  [readFileSync(file, 'utf-8')] returns the decoded
    text (malformed bytes decode to U+FFFD, decoding never throws) or
    throws ([ReadThrows], e.g. EACCES). *)
Inductive ReadResult : Type :=
| ReadOk (text : jsString)
| ReadThrows (err : string).

Inductive Dirent : Type :=
| FileEnt (name : string) (data : ReadResult)            (* isFile() *)
| DirEnt (name : string) (listing : option (list Dirent)) (* isDirectory() *)
| OtherEnt (name : string).                  (* link, socket, fifo, ... *)

Definition Listing := option (list Dirent).

(** [entry.name] *)
Definition entryName (entry : Dirent) : string :=
  match entry with
  | FileEnt name _ => name
  | DirEnt name _ => name
  | OtherEnt name => name
  end.

(** *** [path.join] (POSIX)

    [path.split('/')]: the segments between separators. *)
Fixpoint segments (s : string) : list string :=
  match s with
  | EmptyString => [""]
  | String c r =>
      if Ascii.eqb c "/" then "" :: segments r
      else match segments r with
           | seg :: segs => String c seg :: segs
           | [] => [String c ""]
           end
  end.

(** One segment of [normalizeString]; the stack holds the segments kept so
    far, the last one first.  Empty segments and ["."] are dropped; [".."]
    takes the last segment off, unless there is none or it is [".."]
    itself, when it is kept only above a relative start. *)
Definition normalizeStep (allowAboveRoot : bool) (stack : list string)
           (seg : string) : list string :=
  if String.eqb seg "" || String.eqb seg "." then stack
  else if String.eqb seg ".." then
    match stack with
    | top :: below =>
        if String.eqb top ".."
        then (if allowAboveRoot then ".." :: stack else stack)
        else below
    | [] => if allowAboveRoot then [".."] else []
    end
  else seg :: stack.

Definition normalizeString (path : string) (allowAboveRoot : bool) : string :=
  String.concat "/"
    (rev (fold_left (normalizeStep allowAboveRoot) (segments path) [])).

Fixpoint endsWithSlash (s : string) : bool :=
  match s with
  | EmptyString => false
  | String c r =>
      match r with
      | EmptyString => Ascii.eqb c "/"
      | String _ _ => endsWithSlash r
      end
  end.

(** [path.normalize] *)
Definition normalize (path : string) : string :=
  if String.eqb path "" then "."
  else
    let isAbsolute := prefix "/" path in
    let trailingSeparator := endsWithSlash path in
    let p := normalizeString path (negb isAbsolute) in
    if String.eqb p "" then
      (if isAbsolute then "/" else if trailingSeparator then "./" else ".")
    else
      ((if isAbsolute then "/" else "") ++ p
       ++ (if trailingSeparator then "/" else ""))%string.

(** [path.join(dir, name)]: the non-empty arguments joined by ["/"], then
    normalized. *)
Definition join (dir name : string) : string :=
  match filter (fun a => negb (String.eqb a "")) [dir; name] with
  | [] => "."
  | parts => normalize (String.concat "/" parts)
  end.

(** [path.extname] on an entry name (no separator inside): the text from
    the last dot on, empty when there is no dot, when the only dot is the
    first character, or when the name is [".."]. *)
Fixpoint fromLastDot (s : string) : option string :=
  match s with
  | EmptyString => None
  | String c r =>
      match fromLastDot r with
      | Some e => Some e
      | None => if Ascii.eqb c "." then Some s else None
      end
  end.

Definition extname (name : string) : string :=
  match name with
  | EmptyString => ""
  | String _ r =>
      if String.eqb name ".." then ""
      else match fromLastDot r with Some e => e | None => "" end
  end.

(** [name.startsWith('.')] and [extensions.includes(ext)] *)
Definition startsWith (s p : string) : bool := prefix p s.

Definition includes (l : list string) (x : string) : bool :=
  existsb (String.eqb x) l.

(** A discovered path, paired with what [readFileSync] gives on it. *)
Definition Discovered : Type := string * ReadResult.

(** [getAllFiles]: the loop body for one entry.  A directory whose name
    starts with a dot falls through to the [isFile()] test, which fails.
    The [try]/[catch] of the recursive call turns a directory that cannot
    be listed into no files. *)
Fixpoint getAllFiles_entry (extensions : list string) (dir : string)
         (entry : Dirent) {struct entry} : list Discovered :=
  match entry with
  | DirEnt name listing =>
      let fullPath := join dir name in
      if negb (startsWith name ".") then
        match listing with
        | Some entries =>
            (fix each (es : list Dirent) : list Discovered :=
               match es with
               | [] => []
               | e :: es' =>
                   getAllFiles_entry extensions fullPath e ++ each es'
               end) entries
        | None => []
        end
      else []
  | FileEnt name data =>
      let fullPath := join dir name in
      if includes extensions (extname name) then [(fullPath, data)] else []
  | OtherEnt _ => []
  end.

Definition getAllFiles (dir : string) (listing : Listing)
           (extensions : list string) : list Discovered :=
  match listing with
  | Some entries => flat_map (getAllFiles_entry extensions dir) entries
  | None => []        (* catch: console.error('Error reading directory') *)
  end.

(** [s.replace(pattern, replacement)] with a string pattern: the first
    occurrence only. *)
Fixpoint replace (pattern replacement s : string) : string :=
  if prefix pattern s
  then replacement
       ++ substring (String.length pattern)
                    (String.length s - String.length pattern) s
  else match s with
       | EmptyString => EmptyString
       | String c r => String c (replace pattern replacement r)
       end.

(** *** [AnalysisResult] *)
Record ComplexityDetail : Type := {
  cd_file : string;
  cd_complexity : Q;
  cd_maintainability : Q
}.

Record DuplicationInstance : Type := {
  di_files : list string;
  di_lines : Q;
  di_fragment : string
}.

Record MaintainabilityDetail : Type := {
  md_file : string;
  md_score : Q;
  md_issues : list string
}.

Record Complexity : Type := {
  c_score : Q;
  c_details : list ComplexityDetail
}.

Record Duplication : Type := {
  percentage : Q;
  instances : list DuplicationInstance
}.

Record Maintainability : Type := {
  m_score : Q;
  m_details : list MaintainabilityDetail
}.

Record AnalysisResult : Type := {
  complexity : Complexity;
  duplication : Duplication;
  maintainability : Maintainability
}.

(** The element built for each file by the [files.map] callback. *)
Record FileAnalysis : Type := {
  fa_file : string;
  fa_complexity : Q;
  fa_maintainability : Q;
  fa_lines : nat
}.

Definition analyzeFile (projectPath : string) (f : Discovered)
  : Outcome FileAnalysis :=
  match snd f with
  | ReadThrows err => Rejected err
  | ReadOk content =>
      Resolved {| fa_file := replace projectPath "" (fst f);
                  fa_complexity := calculateBasicComplexity content;
                  fa_maintainability := calculateBasicMaintainability content;
                  fa_lines := List.length (split content) |}
  end.

(** [files.map(file => ...)]: the first callback that throws ends the
    map. *)
Fixpoint mapFiles (projectPath : string) (files : list Discovered)
  : Outcome (list FileAnalysis) :=
  match files with
  | [] => Resolved []
  | f :: fs =>
      match analyzeFile projectPath f with
      | Rejected err => Rejected err
      | Resolved a =>
          match mapFiles projectPath fs with
          | Rejected err => Rejected err
          | Resolved l => Resolved (a :: l)
          end
      end
  end.

Definition recognized : list string := [".ts"; ".tsx"; ".js"; ".jsx"].

Definition analyzeCode (projectPath : string) (root : Listing)
  : Outcome AnalysisResult :=
  let files := getAllFiles projectPath root recognized in
  match mapFiles projectPath files with
  | Rejected error => Rejected error     (* catch (error) { throw error } *)
  | Resolved fileAnalyses =>
      let complexityScore :=
        calculateOverallScore (map fa_complexity fileAnalyses) in
      let maintainabilityScore :=
        calculateOverallScore (map fa_maintainability fileAnalyses) in
      Resolved
        {| complexity :=
             {| c_score := complexityScore;
                c_details :=
                  map (fun f =>
                         {| cd_file := fa_file f;
                            cd_complexity := fa_complexity f;
                            cd_maintainability := fa_maintainability f |})
                      fileAnalyses |};
           duplication :=
             {| percentage := 0;   (* Basic implementation *)
                instances := [] |};
           maintainability :=
             {| m_score := maintainabilityScore;
                m_details :=
                  map (fun f =>
                         {| md_file := fa_file f;
                            md_score := fa_maintainability f;
                            md_issues := [] |})
                      fileAnalyses |} |}
  end.

(** *** The returned object, by property name

    The object literal of [analyzeCode] as a tree of named properties, to
    state which properties the result has. *)
Inductive JSValue : Type :=
| VNum (q : Q)
| VStr (s : string)
| VArr (items : list JSValue)
| VObj (props : list (string * JSValue)).

Definition toObject (r : AnalysisResult) : JSValue :=
  VObj
    [ ("complexity",
       VObj [ ("score", VNum (c_score (complexity r)));
              ("details",
               VArr (map (fun d =>
                            VObj [ ("file", VStr (cd_file d));
                                   ("complexity", VNum (cd_complexity d));
                                   ("maintainability",
                                    VNum (cd_maintainability d)) ])
                         (c_details (complexity r)))) ]);
      ("duplication",
       VObj [ ("percentage", VNum (percentage (duplication r)));
              ("instances",
               VArr (map (fun i =>
                            VObj [ ("files", VArr (map VStr (di_files i)));
                                   ("lines", VNum (di_lines i));
                                   ("fragment", VStr (di_fragment i)) ])
                         (instances (duplication r)))) ]);
      ("maintainability",
       VObj [ ("score", VNum (m_score (maintainability r)));
              ("details",
               VArr (map (fun d =>
                            VObj [ ("file", VStr (md_file d));
                                   ("score", VNum (md_score d));
                                   ("issues", VArr (map VStr (md_issues d))) ])
                         (m_details (maintainability r)))) ]) ].

(** [value[name]]; [None] is [undefined]. *)
Definition getProperty (name : string) (v : JSValue) : option JSValue :=
  match v with
  | VObj props =>
      option_map snd (find (fun p => String.eqb (fst p) name) props)
  | _ => None
  end.

End CodeAnalysis.

(** ** src/app/api/analyze/route.ts *)

Module Route.
Import JS.
Import CodeAnalysis.

Record Weights : Type := {
  w_complexity : Q;
  w_maintainability : Q;
  w_duplication : Q
}.

(** The literals [0.3], [0.4] and [0.3] are doubles. *)
Definition weights : Weights :=
  {| w_complexity := double (3 # 10);
     w_maintainability := double (4 # 10);
     w_duplication := double (3 # 10) |}.

(** The three fields read are numbers, hence doubles; the products and the
    sums are double operations, evaluated from left to right. *)
Definition calculateOverallScore (results : AnalysisResult) : Q :=
  let complexityScore := double (c_score (complexity results)) in
  let maintainabilityScore := double (m_score (maintainability results)) in
  let duplicationScore :=
    sub64 100 (double (percentage (duplication results))) in
  Math_round
    (add64 (add64 (mul64 complexityScore (w_complexity weights))
                  (mul64 maintainabilityScore (w_maintainability weights)))
           (mul64 duplicationScore (w_duplication weights))).

Definition countCriticalIssues (results : AnalysisResult) : nat :=
  fold_left
    (fun (count : nat) detail =>
       (count + (if 0 <? List.length (md_issues detail) then 1 else 0))%nat)
    (m_details (maintainability results)) 0%nat.

Definition getHealthStatus (score : Q) : string :=
  if Qle_bool 80 score then "Excellent"
  else if Qle_bool 70 score then "Good"
  else if Qle_bool 50 score then "Fair"
  else "Needs Improvement".

Definition recComplexity : string :=
  "Consider breaking down complex functions into smaller, more manageable pieces".
Definition recMaintainability : string :=
  "Focus on improving code maintainability through better documentation and simpler code structures".
Definition recDuplication : string :=
  "Reduce code duplication by extracting common functionality into shared components or utilities".

(** The [filter] / [slice(0, 3)] / [forEach] chain of
    [generateRecommendations]. *)
Definition fileRecommendations (results : AnalysisResult) : list string :=
  map (fun detail =>
         ("Improve maintainability in " ++ md_file detail ++ ": "
          ++ hd "undefined" (md_issues detail))%string)
      (firstn 3
         (filter (fun detail => Nat.ltb 0 (List.length (md_issues detail)))
                 (m_details (maintainability results)))).

Definition Qlt_bool (a b : Q) : bool := negb (Qle_bool b a).

Definition generateRecommendations (results : AnalysisResult)
  : list string :=
  let recommendations := [] in
  let recommendations :=
    if Qlt_bool 70 (c_score (complexity results))
    then recommendations ++ [recComplexity] else recommendations in
  let recommendations :=
    if Qlt_bool (m_score (maintainability results)) 65
    then recommendations ++ [recMaintainability] else recommendations in
  let recommendations :=
    if Qlt_bool 15 (percentage (duplication results))
    then recommendations ++ [recDuplication] else recommendations in
  recommendations ++ fileRecommendations results.

End Route.

(** ** Specification-side notions, to compare the code with *)

Module Spec.
Import JS.
Import CodeAnalysis.

(** The number of positions of a text at which a pattern matches, every
    position counting on its own. *)
Fixpoint positions (m : matcher) (s : jsString) : nat :=
  match s with
  | [] => O
  | _ :: r =>
      ((match m s with Some _ => 1 | None => 0 end) + positions m r)%nat
  end.

(** Whether a match attempt succeeds. *)
Definition found {A : Type} (o : option A) : bool :=
  match o with Some _ => true | None => false end.

(** No match of [m] starts strictly inside another match of [m]. *)
Definition apart (m : matcher) : Prop :=
  forall t rest, m t = Some rest ->
  forall j, (0 < j < List.length t - List.length rest)%nat ->
  m (skipn j t) = None.

(** An occurrence of a branching keyword: a position of the text where the
    keyword, optional white space and an opening parenthesis start. *)
Definition occurrences (kw : string) (content : jsString) : nat :=
  positions (keywordParen kw) content.

(** The line count of a text. *)
Definition lineCount (content : jsString) : nat :=
  List.length (split content).


(** The density formula over a given number of branch constructs. *)
Definition density (branches : nat) (content : jsString) : Q :=
  Qmin 100 ((ofNat (1 + branches) / ofNat (lineCount content)) * 100).

(** The formula as the specification words it, [match] being counted with
    [switch]. *)
Definition complexityWithMatch (content : jsString) : Q :=
  density (occurrences "if" content + occurrences "for" content
           + occurrences "while" content
           + (occurrences "switch" content + occurrences "match" content))
          content.

(** The formula over the four keywords the code looks for. *)
Definition complexity (content : jsString) : Q :=
  density (occurrences "if" content + occurrences "for" content
           + occurrences "while" content + occurrences "switch" content)
          content.

(** [n] is [round x]: the nearest integer, a half rounding up. *)
Definition isRound (x : Q) (n : Z) : Prop :=
  inject_Z n - (1 # 2) <= x /\ x < inject_Z n + (1 # 2).

(** The weighted sum behind the overall score. *)
Definition weighted (r : AnalysisResult) : Q :=
  c_score (CodeAnalysis.complexity r) * (3 # 10)
  + m_score (maintainability r) * (4 # 10)
  + (100 - percentage (duplication r)) * (3 # 10).

(** Paths in lexicographic order. *)
Fixpoint lexSorted (paths : list string) : bool :=
  match paths with
  | [] => true
  | p :: rest =>
      match rest with
      | [] => true
      | q :: _ => String.leb p q && lexSorted rest
      end
  end.

(** The formula of the overall score with its products and sums in double
    arithmetic: [c * 0.3 + m * 0.4 + (100 - d) * 0.3]. *)
Definition weighted64 (r : AnalysisResult) : Q :=
  add64 (add64 (mul64 (double (c_score (CodeAnalysis.complexity r)))
                      (double (3 # 10)))
               (mul64 (double (m_score (maintainability r)))
                      (double (4 # 10))))
        (mul64 (sub64 100 (double (percentage (duplication r))))
               (double (3 # 10))).

(** Depth-first discovery in listing order: the entries of a directory are
    taken one after the other; a file with a listed extension gives its
    path, a readable directory whose name does not start with a dot gives
    the files found below it, in its place, and any other entry gives
    nothing. *)
Inductive depthFirst (extensions : list string)
  : string -> list Dirent -> list Discovered -> Prop :=
| df_end (dir : string) : depthFirst extensions dir [] []
| df_file (dir name : string) (data : ReadResult) (entries : list Dirent)
          (found : list Discovered) :
    includes extensions (extname name) = true ->
    depthFirst extensions dir entries found ->
    depthFirst extensions dir (FileEnt name data :: entries)
               ((join dir name, data) :: found)
| df_other_file (dir name : string) (data : ReadResult)
                (entries : list Dirent) (found : list Discovered) :
    includes extensions (extname name) = false ->
    depthFirst extensions dir entries found ->
    depthFirst extensions dir (FileEnt name data :: entries) found
| df_directory (dir name : string) (below entries : list Dirent)
               (inside found : list Discovered) :
    startsWith name "." = false ->
    depthFirst extensions (join dir name) below inside ->
    depthFirst extensions dir entries found ->
    depthFirst extensions dir (DirEnt name (Some below) :: entries)
               (inside ++ found)
| df_unreadable (dir name : string) (entries : list Dirent)
                (found : list Discovered) :
    startsWith name "." = false ->
    depthFirst extensions dir entries found ->
    depthFirst extensions dir (DirEnt name None :: entries) found
| df_hidden (dir name : string) (listing : Listing) (entries : list Dirent)
            (found : list Discovered) :
    startsWith name "." = true ->
    depthFirst extensions dir entries found ->
    depthFirst extensions dir (DirEnt name listing :: entries) found
| df_not_a_file (dir name : string) (entries : list Dirent)
                (found : list Discovered) :
    depthFirst extensions dir entries found ->
    depthFirst extensions dir (OtherEnt name :: entries) found.

(** The discovery order of a root that may be missing. *)
Definition discovery (extensions : list string) (dir : string)
           (root : Listing) (found : list Discovered) : Prop :=
  match root with
  | Some entries => depthFirst extensions dir entries found
  | None => found = []
  end.

(** The file entries of a tree that lie in [entries] or below it through
    readable directories whose names do not start with a dot, and that have
    a listed extension, each with its path. *)
Inductive reaches (extensions : list string)
  : string -> list Dirent -> Discovered -> Prop :=
| reaches_file (dir : string) (entries : list Dirent) (name : string)
               (data : ReadResult) :
    In (FileEnt name data) entries ->
    includes extensions (extname name) = true ->
    reaches extensions dir entries (join dir name, data)
| reaches_below (dir : string) (entries : list Dirent) (sub : string)
                (below : list Dirent) (f : Discovered) :
    In (DirEnt sub (Some below)) entries ->
    startsWith sub "." = false ->
    reaches extensions (join dir sub) below f ->
    reaches extensions dir entries f.

(** A name as [readdirSync] gives it: not empty, not ["."] or [".."], and
    without a separator. *)
Fixpoint hasSlash (s : string) : bool :=
  match s with
  | EmptyString => false
  | String c r => Ascii.eqb c "/" || hasSlash r
  end.

Definition plainName (s : string) : bool :=
  negb (String.eqb s "") && negb (String.eqb s ".")
  && negb (String.eqb s "..") && negb (hasSlash s).

(** Every name of an entry and of the entries below it is plain. *)
Fixpoint plainNames (entry : Dirent) : bool :=
  match entry with
  | FileEnt name _ => plainName name
  | DirEnt name listing =>
      plainName name
      && match listing with
         | Some entries =>
             (fix all (es : list Dirent) : bool :=
                match es with
                | [] => true
                | e :: es' => plainNames e && all es'
                end) entries
         | None => true
         end
  | OtherEnt name => plainName name
  end.

Definition plainListing (root : Listing) : bool :=
  match root with
  | Some entries => forallb plainNames entries
  | None => true
  end.

(** The absolute path made of the given segments: ["/a/b"] for [a], [b]. *)
Fixpoint absPath (segs : list string) : string :=
  match segs with
  | [] => ""
  | seg :: rest => ("/" ++ seg ++ absPath rest)%string
  end.

End Spec.

(** ** Concrete projects and texts *)

Module Samples.
Import JS.
Import CodeAnalysis.

(** A text of four lines that calls [String.prototype.match]. *)
Definition matchText : jsString :=
  text ["const m = name.match (pattern);"; "export default m;"; ""; ""].

(** Four lines without a branch, and the same with one [if (] added. *)
Definition plainText : jsString :=
  text ["function f(a) {"; "  return a;"; "}"; "export default f;"].
Definition branchText : jsString :=
  text ["function f(a) {"; "  if (a) return a;"; "}"; "export default f;"].

(** A directory [a] with [z.ts], next to a file [a.ts], a hidden directory
    and a file that is no source file; every listing is in name order. *)
Definition nested : Listing :=
  Some [ DirEnt ".git" (Some [FileEnt "hook.js" (ReadOk (lit "x"))]);
         FileEnt "README.md" (ReadOk (lit "# readme"));
         DirEnt "a" (Some [FileEnt "z.ts" (ReadOk branchText)]);
         FileEnt "a.ts" (ReadOk plainText) ].

(** The result with no file in it. *)
Definition emptyResult : AnalysisResult :=
  {| complexity := {| c_score := 0; c_details := [] |};
     duplication := {| percentage := 0; instances := [] |};
     maintainability := {| m_score := 0; m_details := [] |} |}.

(** A root that holds no file with a recognized extension. *)
Definition noSources : Listing :=
  Some [ FileEnt "README.md" (ReadOk (lit "# readme"));
         DirEnt "docs" (Some [FileEnt "notes.txt" (ReadOk (lit "todo"))]) ].

(** Two files with the same function, whose body has four lines. *)
Definition helperText : jsString :=
  text ["export function helper(x) {";
        "  const doubled = x * 2;";
        "  const shifted = doubled + 1;";
        "  const clamped = Math.max(shifted, 0);";
        "  return clamped;";
        "}"].

Definition duplicated : Listing :=
  Some [ FileEnt "duplicate.ts" (ReadOk helperText);
         FileEnt "duplicate2.ts" (ReadOk helperText) ].

(** The project of the repository's own test of the engine. *)
Definition simpleText : jsString :=
  text ["function add(a: number, b: number): number {";
        "          return a + b;";
        "        }";
        "        export default add;"].

Definition complexText : jsString :=
  text ["function calculateComplexity(data: any[]): number {";
        "          let result = 0;";
        "          for (let i = 0; i < data.length; i++) {";
        "            if (data[i] > 10) {";
        "              result += data[i] * 2;";
        "            } else if (data[i] < 0) {";
        "              result += Math.abs(data[i]);";
        "            } else {";
        "              result += data[i];";
        "            }";
        "            ";
        "            if (result > 100) {";
        "              result = result * 0.9;";
        "            }";
        "          }";
        "          return result;";
        "        }";
        "        export default calculateComplexity;"].

Definition duplicateText : jsString :=
  text ["export function helper(x: number): number {";
        "          return x * 2;";
        "        }"].

Definition duplicate2Text : jsString :=
  text ["export function helperCopy(x: number): number {";
        "          return x * 2;";
        "        }"].

Definition sampleRepo : Listing :=
  Some [ FileEnt "complex.ts" (ReadOk complexText);
         FileEnt "duplicate.ts" (ReadOk duplicateText);
         FileEnt "duplicate2.ts" (ReadOk duplicate2Text);
         FileEnt "simple.ts" (ReadOk simpleText) ].

(** Two source files, the second of which cannot be read. *)
Definition oneUnreadable : Listing :=
  Some [ FileEnt "a.ts" (ReadOk plainText);
         FileEnt "b.ts" (ReadThrows "EACCES: permission denied, open '/repo/b.ts'") ].


(** A result whose weighted sum is exactly 49.5, and whose double sum lies
    just below. *)
Definition tie : AnalysisResult :=
  {| complexity := {| c_score := 6; c_details := [] |};
     duplication := {| percentage := 49; instances := [] |};
     maintainability := {| m_score := 81; m_details := [] |} |}.

(** A result with all three thresholds crossed and one file with issues,
    and a better one. *)
Definition flagged : AnalysisResult :=
  {| complexity := {| c_score := 80; c_details := [] |};
     duplication := {| percentage := 20; instances := [] |};
     maintainability :=
       {| m_score := 40;
          m_details :=
            [ {| md_file := "/a.ts"; md_score := 40; md_issues := [] |};
              {| md_file := "/b.ts"; md_score := 10;
                 md_issues := ["no comments"; "long function"] |} ] |} |}.

Definition improved : AnalysisResult :=
  {| complexity := {| c_score := 90; c_details := [] |};
     duplication := {| percentage := 10; instances := [] |};
     maintainability := {| m_score := 70; m_details := [] |} |}.

End Samples.

(** * Properties *)

Import JS CodeAnalysis.

(** ** Global matching counts every occurrence once *)

Section Scanning.

Variable m : matcher.
Hypothesis m_apart : Spec.apart m.

Lemma scan_skipping (s : jsString) :
  forall k, (forall j, (j < k)%nat -> m (skipn j s) = None) ->
  scan m k s = Spec.positions m s.
Proof.
  induction s as [|c r IH]; intros k Hk; [reflexivity|].
  destruct k as [|k]; cbn [scan Spec.positions].
  - destruct (m (c :: r)) as [rest|] eqn:Hm.
    + cbn [Nat.add]. f_equal. apply IH. intros j Hj.
      apply (m_apart _ _ Hm (S j)). lia.
    + apply IH. intros j Hj. lia.
  - assert (H0 : m (c :: r) = None) by (apply (Hk O); lia).
    rewrite H0. apply IH. intros j Hj.
    apply (Hk (S j)). lia.
Qed.

Lemma matchCount_positions (s : jsString) :
  matchCount m s = Spec.positions m s.
Proof. apply scan_skipping. intros j Hj. lia. Qed.

End Scanning.

Lemma str_Some (kw s rest : jsString) :
  str kw s = Some rest -> s = kw ++ rest.
Proof.
  revert s. induction kw as [|k kw IH]; intros s H; cbn in H.
  - now inversion H.
  - destruct s as [|c r]; [discriminate|].
    destruct (N.eqb_spec c k) as [->|]; [|discriminate].
    cbn. f_equal. now apply IH.
Qed.

Lemma star_split (cls : codeUnit -> bool) (s : jsString) :
  exists ws, s = ws ++ star cls s /\ Forall (fun c => cls c = true) ws.
Proof.
  induction s as [|c r [ws [E F]]]; [now exists []|].
  cbn. destruct (cls c) eqn:Hc.
  - exists (c :: ws). split; [cbn; congruence | now constructor].
  - now exists [].
Qed.

(** A match of [kw\s*\(] is the keyword, a run of white space and the
    parenthesis. *)
Lemma keywordParen_shape (kw : string) (t rest : jsString) :
  keywordParen kw t = Some rest ->
  exists ws, t = lit kw ++ ws ++ 40%N :: rest
             /\ Forall (fun c => isWhiteSpace c = true) ws.
Proof.
  unfold keywordParen, andThen. intros H.
  destruct (str (lit kw) t) as [r|] eqn:Hk; [|discriminate].
  apply str_Some in Hk. apply str_Some in H.
  destruct (star_split isWhiteSpace r) as [ws [E F]].
  exists ws. split; [|exact F].
  rewrite Hk. f_equal. rewrite E at 1. f_equal. exact H.
Qed.

Lemma keywordParen_head (kw : string) (k0 : codeUnit) (kwr t : jsString) :
  lit kw = k0 :: kwr ->
  (forall c r, t = c :: r -> c <> k0) ->
  keywordParen kw t = None.
Proof.
  intros Hkw Hhd. unfold keywordParen, andThen. rewrite Hkw. cbn.
  destruct t as [|c r]; [reflexivity|].
  destruct (N.eqb_spec c k0) as [->|]; [|reflexivity].
  now elim (Hhd k0 r).
Qed.

(** A keyword whose first letter does not come back in it, and is neither
    white space nor the parenthesis, has matches that lie apart. *)
Lemma keywordParen_apart (kw : string) (k0 : codeUnit) (kwr : jsString) :
  lit kw = k0 :: kwr ->
  ~ In k0 kwr -> isWhiteSpace k0 = false -> k0 <> 40%N ->
  Spec.apart (keywordParen kw).
Proof.
  intros Hkw Hin Hws Hp t rest Hm j Hj.
  destruct (keywordParen_shape _ _ _ Hm) as [ws [Et Fws]].
  rewrite Hkw in Et.
  set (tail := kwr ++ ws ++ [40%N]).
  assert (Et' : t = k0 :: tail ++ rest).
  { rewrite Et. unfold tail. cbn. f_equal.
    rewrite <- !app_assoc. reflexivity. }
  assert (Htail : forall c, In c tail -> c <> k0).
  { intros c Hc. unfold tail in Hc.
    apply in_app_or in Hc. destruct Hc as [Hc|Hc]; [congruence|].
    apply in_app_or in Hc. destruct Hc as [Hc|[<-|[]]].
    - rewrite Forall_forall in Fws. apply Fws in Hc. congruence.
    - congruence. }
  assert (Hlen : (List.length t - List.length rest = S (List.length tail))%nat).
  { rewrite Et'. cbn [List.length]. rewrite length_app. lia. }
  apply (keywordParen_head kw k0 kwr); [exact Hkw|].
  intros c r Hcr. destruct j as [|j]; [lia|].
  rewrite Et' in Hcr. cbn [skipn] in Hcr.
  rewrite skipn_app in Hcr.
  destruct (skipn j tail) as [|c' r'] eqn:Hs.
  - apply (f_equal (@List.length _)) in Hs. rewrite length_skipn in Hs.
    cbn in Hs. lia.
  - cbn in Hcr. inversion Hcr; subst c'. apply Htail.
    rewrite <- (firstn_skipn j tail), Hs. apply in_or_app. right. now left.
Qed.

Lemma ifCount_occurrences (content : jsString) :
  ifCount content = Spec.occurrences "if" content.
Proof.
  apply matchCount_positions.
  apply (keywordParen_apart "if" 105%N (lit "f")); try easy.
  cbn. intros [H|[]]; discriminate.
Qed.

Lemma forCount_occurrences (content : jsString) :
  forCount content = Spec.occurrences "for" content.
Proof.
  apply matchCount_positions.
  apply (keywordParen_apart "for" 102%N (lit "or")); try easy.
  cbn. intros [H|[H|[]]]; discriminate.
Qed.

Lemma whileCount_occurrences (content : jsString) :
  whileCount content = Spec.occurrences "while" content.
Proof.
  apply matchCount_positions.
  apply (keywordParen_apart "while" 119%N (lit "hile")); try easy.
  cbn. intros [H|[H|[H|[H|[]]]]]; discriminate.
Qed.

Lemma switchCount_occurrences (content : jsString) :
  switchCount content = Spec.occurrences "switch" content.
Proof.
  apply matchCount_positions.
  apply (keywordParen_apart "switch" 115%N (lit "witch")); try easy.
  cbn. intros [H|[H|[H|[H|[H|[]]]]]]; discriminate.
Qed.

Lemma baseComplexity_occurrences (content : jsString) :
  baseComplexity content
  = (1 + (Spec.occurrences "if" content + Spec.occurrences "for" content
          + Spec.occurrences "while" content
          + Spec.occurrences "switch" content))%nat.
Proof.
  unfold baseComplexity.
  rewrite ifCount_occurrences, forCount_occurrences,
    whileCount_occurrences, switchCount_occurrences. lia.
Qed.

(** ** Per-file complexity *)

(** C5, as the code has it: the per-file complexity is
    min(100, ((1 + occurrences of [if] + of [for] + of [while] + of
    [switch]) / lineCount) * 100), every occurrence (the keyword, optional
    white space, an opening parenthesis) counted once; [match] is not among
    the keywords counted.  The line count is at least one for every text. *)
Theorem complexity_is_branch_density (content : jsString) :
  calculateBasicComplexity content = Spec.complexity content
  /\ (1 <= Spec.lineCount content)%nat.
Proof.
  split.
  - unfold calculateBasicComplexity, Spec.complexity, Spec.density,
      Spec.lineCount, Math_min.
    now rewrite baseComplexity_occurrences.
  - unfold Spec.lineCount. destruct content as [|c r]; cbn; [lia|].
    destruct (c =? LF)%N; [cbn; lia|].
    destruct (split r); cbn; lia.
Qed.

(** C5 as stated fails on a text that holds a [match (]: the formula that
    counts [match] with [switch] gives 50 on four lines, the code 25. *)
Lemma complexity_ignores_match :
  Spec.lineCount Samples.matchText = 4%nat
  /\ calculateBasicComplexity Samples.matchText == 25
  /\ Spec.complexityWithMatch Samples.matchText == 50
  /\ ~ calculateBasicComplexity Samples.matchText
        == Spec.complexityWithMatch Samples.matchText.
Proof.
  repeat split; try reflexivity. intros H. vm_compute in H. discriminate.
Qed.

Lemma ofNat_pos (n : nat) : (0 < n)%nat -> 0 < ofNat n.
Proof.
  intros H. unfold ofNat. change 0 with (inject_Z 0).
  rewrite <- Zlt_Qlt. lia.
Qed.

Lemma lineCount_pos (content : jsString) :
  (0 < List.length (split content))%nat.
Proof.
  destruct content as [|c r]; cbn; [lia|].
  destruct (c =? LF)%N; [cbn; lia|].
  destruct (split r); cbn; lia.
Qed.

(** The quotient grows with the numerator. *)
Lemma density_step (c n : nat) :
  (0 < n)%nat -> ofNat c / ofNat n * 100 < ofNat (S c) / ofNat n * 100.
Proof.
  intros Hn. apply Qmult_lt_compat_r; [reflexivity|].
  unfold Qdiv. apply Qmult_lt_compat_r.
  - apply Qinv_lt_0_compat. now apply ofNat_pos.
  - unfold ofNat. rewrite <- Zlt_Qlt. lia.
Qed.

(** Below the cap, a larger numerator over the same denominator gives a
    larger capped value. *)
Lemma capped_density_step (c n : nat) :
  (0 < n)%nat ->
  Qmin 100 (ofNat c / ofNat n * 100) < 100 ->
  Qmin 100 (ofNat c / ofNat n * 100) < Qmin 100 (ofNat (S c) / ofNat n * 100).
Proof.
  intros Hn Hcap. apply Q.min_glb_lt; [exact Hcap|].
  eapply Qle_lt_trans; [apply Q.le_min_r|]. now apply density_step.
Qed.

(** *** Adding a construct to a text

    Writing [if(] at the end of any text adds exactly one [if] occurrence,
    no other occurrence and no line, so it raises the complexity of every
    text below the cap. *)

#[local] Arguments isWhiteSpace : simpl never.

Lemma tail_paren (u : jsString) :
  Spec.found (str (lit "(") (star isWhiteSpace (u ++ lit "if(")))
  = Spec.found (str (lit "(") (star isWhiteSpace u)).
Proof.
  induction u as [|a u IH]; [reflexivity|].
  cbn [app star]. destruct (isWhiteSpace a); [exact IH|].
  cbn. destruct (a =? 40)%N; reflexivity.
Qed.

Ltac next_unit u :=
  destruct u as [|? u]; cbn; [reflexivity|];
  match goal with
  | |- context [(?a =? ?k)%N] => destruct (a =? k)%N; [|reflexivity]
  end.

Tactic Notation "no_straddle" ident(u) integer(n) :=
  let Hu := fresh in
  intros Hu; unfold keywordParen, andThen;
  destruct u as [|? u]; [congruence|]; cbn;
  match goal with
  | |- context [(?a =? ?k)%N] => destruct (a =? k)%N; [|reflexivity]
  end;
  do n (next_unit u); apply tail_paren.

Lemma straddle_if (u : jsString) :
  u <> [] ->
  Spec.found (keywordParen "if" (u ++ lit "if("))
  = Spec.found (keywordParen "if" u).
Proof. no_straddle u 1. Qed.

Lemma straddle_for (u : jsString) :
  u <> [] ->
  Spec.found (keywordParen "for" (u ++ lit "if("))
  = Spec.found (keywordParen "for" u).
Proof. no_straddle u 2. Qed.

Lemma straddle_while (u : jsString) :
  u <> [] ->
  Spec.found (keywordParen "while" (u ++ lit "if("))
  = Spec.found (keywordParen "while" u).
Proof. no_straddle u 4. Qed.

Lemma straddle_switch (u : jsString) :
  u <> [] ->
  Spec.found (keywordParen "switch" (u ++ lit "if("))
  = Spec.found (keywordParen "switch" u).
Proof. no_straddle u 5. Qed.

Lemma positions_app (m : matcher) (t s : jsString) :
  (forall u, u <> [] -> Spec.found (m (u ++ t)) = Spec.found (m u)) ->
  Spec.positions m (s ++ t)
  = (Spec.positions m s + Spec.positions m t)%nat.
Proof.
  intros Hm. induction s as [|c r IH]; [reflexivity|].
  cbn [app Spec.positions]. rewrite IH.
  assert (Hc : Spec.found (m ((c :: r) ++ t)) = Spec.found (m (c :: r)))
    by (apply Hm; discriminate).
  cbn [app] in Hc.
  destruct (m (c :: r ++ t)), (m (c :: r)); cbn in Hc;
    try discriminate Hc; lia.
Qed.

Lemma baseComplexity_append_if (content : jsString) :
  baseComplexity (content ++ lit "if(") = S (baseComplexity content).
Proof.
  rewrite !baseComplexity_occurrences. unfold Spec.occurrences.
  rewrite (positions_app _ _ _ straddle_if), (positions_app _ _ _ straddle_for),
    (positions_app _ _ _ straddle_while), (positions_app _ _ _ straddle_switch).
  replace (Spec.positions (keywordParen "if") (lit "if(")) with 1%nat
    by reflexivity.
  replace (Spec.positions (keywordParen "for") (lit "if(")) with 0%nat
    by reflexivity.
  replace (Spec.positions (keywordParen "while") (lit "if(")) with 0%nat
    by reflexivity.
  replace (Spec.positions (keywordParen "switch") (lit "if(")) with 0%nat
    by reflexivity.
  lia.
Qed.

Lemma split_cons_length (c : codeUnit) (r : jsString) :
  (c =? LF)%N = false ->
  List.length (split (c :: r)) = List.length (split r).
Proof.
  intros H. cbn [split]. rewrite H.
  pose proof (lineCount_pos r) as P.
  destruct (split r); [cbn in P; lia | reflexivity].
Qed.

Lemma split_append_if (content : jsString) :
  List.length (split (content ++ lit "if("))
  = List.length (split content).
Proof.
  induction content as [|c r IH]; [reflexivity|].
  cbn [app]. destruct (c =? LF)%N eqn:E.
  - cbn [split]. rewrite E. cbn [List.length]. now rewrite IH.
  - now rewrite !split_cons_length.
Qed.

Lemma one_more_if_raises_complexity (content : jsString) :
  calculateBasicComplexity content < 100 ->
  calculateBasicComplexity content
  < calculateBasicComplexity (content ++ lit "if(").
Proof.
  unfold calculateBasicComplexity, Math_min. cbv zeta.
  rewrite split_append_if, baseComplexity_append_if.
  apply capped_density_step, lineCount_pos.
Qed.

(** *** Adding any of the four constructs

    The same for each of the four keywords, with white space other than a
    line feed between the keyword and the parenthesis. *)

Lemma tail_paren_after (K u : jsString) :
  Spec.found (str (lit "(") (star isWhiteSpace K)) = false ->
  Spec.found (str (lit "(") (star isWhiteSpace (u ++ K)))
  = Spec.found (str (lit "(") (star isWhiteSpace u)).
Proof.
  intros HK. induction u as [|a u IH]; [exact HK|].
  cbn [app star]. destruct (isWhiteSpace a); [exact IH|].
  cbn. destruct (a =? 40)%N; reflexivity.
Qed.

Ltac letters_are_not_white :=
  repeat match goal with
         | |- context [isWhiteSpace (N.pos ?p)] =>
             change (isWhiteSpace (N.pos p)) with false
         end.

Ltac no_match := cbn; letters_are_not_white; cbn; reflexivity.

Ltac next_letter u :=
  destruct u as [|? u]; [no_match|]; cbn;
  match goal with
  | |- context [(?a =? ?k)%N] => destruct (a =? k)%N; [|reflexivity]
  end.

Tactic Notation "no_straddle_into" ident(u) integer(n) :=
  unfold keywordParen, andThen;
  destruct u as [|? u]; [congruence|]; cbn;
  match goal with
  | |- context [(?a =? ?k)%N] => destruct (a =? k)%N; [|reflexivity]
  end;
  do n (next_letter u); apply tail_paren_after; no_match.

Section Construct.

Variable kw : string.
Variable W : jsString.
Hypothesis kw_known : In kw ["if"; "for"; "while"; "switch"].





End Construct.















(** C6, as the code has it: the empty text splits into one (empty) line, so
    neither score divides by zero; its maintainability is 0 and its
    complexity is 100, the base complexity 1 over one line. *)
Theorem empty_text_scores :
  calculateBasicComplexity [] == 100
  /\ calculateBasicMaintainability [] == 0
  /\ List.length (split []) = 1%nat
  /\ forall content : jsString, ~ ofNat (List.length (split content)) == 0.
Proof.
  repeat split; try reflexivity.
  intros content H. pose proof (ofNat_pos _ (lineCount_pos content)) as P.
  rewrite H in P. discriminate.
Qed.

(** C6 as stated fails: the complexity of the empty text is not 0. *)
Lemma empty_text_complexity_not_zero :
  ~ (calculateBasicComplexity [] == 0
     /\ calculateBasicMaintainability [] == 0).
Proof. intros [H _]. vm_compute in H. discriminate. Qed.

(** ** Overall score and health label *)

Lemma Math_round_isRound (x : Q) :
  exists n : Z, Math_round x = inject_Z n /\ Spec.isRound x n.
Proof.
  exists (Qfloor (x + (1 # 2))). split; [reflexivity|].
  unfold Spec.isRound.
  pose proof (Qfloor_le (x + (1 # 2))) as Hle.
  pose proof (Qlt_floor (x + (1 # 2))) as Hlt.
  rewrite inject_Z_plus in Hlt. change (inject_Z 1) with 1 in Hlt.
  split; lra.
Qed.

Lemma Qle_bool_false (x y : Q) : Qle_bool x y = false <-> y < x.
Proof.
  split; intros H.
  - apply Qnot_le_lt. intros L. apply Qle_bool_iff in L. congruence.
  - destruct (Qle_bool x y) eqn:E; [|reflexivity].
    apply Qle_bool_iff in E. lra.
Qed.

Lemma health_bands (score : Q) :
  (Route.getHealthStatus score = "Excellent" <-> 80 <= score)
  /\ (Route.getHealthStatus score = "Good" <-> 70 <= score /\ score < 80)
  /\ (Route.getHealthStatus score = "Fair" <-> 50 <= score /\ score < 70)
  /\ (Route.getHealthStatus score = "Needs Improvement" <-> score < 50).
Proof.
  unfold Route.getHealthStatus.
  destruct (Qle_bool 80 score) eqn:E80;
    [apply Qle_bool_iff in E80 | apply Qle_bool_false in E80];
  (destruct (Qle_bool 70 score) eqn:E70;
    [apply Qle_bool_iff in E70 | apply Qle_bool_false in E70]);
  (destruct (Qle_bool 50 score) eqn:E50;
    [apply Qle_bool_iff in E50 | apply Qle_bool_false in E50]);
  repeat split; intros; try discriminate; try lra.
Qed.

(** *** Double arithmetic is monotone *)

Lemma floor_bounds (q : Q) :
  inject_Z (Qfloor q) <= q /\ q < inject_Z (Qfloor q) + 1.
Proof.
  split; [apply Qfloor_le|].
  pose proof (Qlt_floor q) as H. rewrite inject_Z_plus in H. exact H.
Qed.

Lemma roundHalfEven_near (q : Q) :
  q - (1 # 2) <= inject_Z (roundHalfEven q)
  /\ inject_Z (roundHalfEven q) <= q + (1 # 2).
Proof.
  unfold roundHalfEven. destruct (floor_bounds q) as [L U].
  destruct (Qcompare_spec (q - inject_Z (Qfloor q)) (1 # 2)) as [E|E|E];
    [destruct (Z.even (Qfloor q))|..];
    rewrite ?inject_Z_plus; change (inject_Z 1) with 1; split; lra.
Qed.

Lemma roundHalfEven_monotone (p q : Q) :
  p <= q -> (roundHalfEven p <= roundHalfEven q)%Z.
Proof.
  intros H. pose proof (Qfloor_resp_le _ _ H) as F.
  destruct (floor_bounds p) as [Lp Up]. destruct (floor_bounds q) as [Lq Uq].
  assert (Hp : (Qfloor p <= roundHalfEven p <= Qfloor p + 1)%Z).
  { unfold roundHalfEven. destruct (Qcompare _ _); [destruct (Z.even _)|..]; lia. }
  assert (Hq : (Qfloor q <= roundHalfEven q <= Qfloor q + 1)%Z).
  { unfold roundHalfEven. destruct (Qcompare _ _); [destruct (Z.even _)|..]; lia. }
  destruct (Z.eq_dec (Qfloor p) (Qfloor q)) as [E|N]; [|lia].
  unfold roundHalfEven in *. rewrite E in *.
  destruct (Qcompare_spec (p - inject_Z (Qfloor q)) (1 # 2)) as [A|A|A];
  destruct (Qcompare_spec (q - inject_Z (Qfloor q)) (1 # 2)) as [B|B|B];
    try (destruct (Z.even (Qfloor q))); try lia; lra.
Qed.

Lemma roundHalfEven_Z (z : Z) : roundHalfEven (inject_Z z) = z.
Proof.
  unfold roundHalfEven. rewrite Qfloor_Z.
  destruct (Qcompare_spec (inject_Z z - inject_Z z) (1 # 2)) as [A|A|A];
    [lra | reflexivity | lra].
Qed.

Lemma pow2_pos (s : Z) : (0 < 2 ^ s)%Z -> 0 < inject_Z (2 ^ s).
Proof. intros H. change 0 with (inject_Z 0). now rewrite <- Zlt_Qlt. Qed.

Lemma shiftOf_monotone (x y : Q) : x <= y -> (shiftOf x <= shiftOf y)%Z.
Proof.
  intros H. unfold shiftOf. pose proof (Qfloor_resp_le _ _ H) as F.
  pose proof (Z.log2_le_mono _ _ F). lia.
Qed.

Lemma scaled_le (x : Q) (s b : Z) :
  (0 <= s)%Z -> x <= inject_Z (b * 2 ^ s) ->
  (roundHalfEven (x / inject_Z (2 ^ s)) * 2 ^ s <= b * 2 ^ s)%Z.
Proof.
  intros Hs H. assert (P : (0 < 2 ^ s)%Z) by (apply Z.pow_pos_nonneg; lia).
  apply Z.mul_le_mono_nonneg_r; [lia|].
  rewrite <- (roundHalfEven_Z b). apply roundHalfEven_monotone.
  apply Qle_shift_div_r; [now apply pow2_pos|].
  now rewrite <- inject_Z_mult.
Qed.

Lemma scaled_ge (x : Q) (s b : Z) :
  (0 <= s)%Z -> inject_Z (b * 2 ^ s) <= x ->
  (b * 2 ^ s <= roundHalfEven (x / inject_Z (2 ^ s)) * 2 ^ s)%Z.
Proof.
  intros Hs H. assert (P : (0 < 2 ^ s)%Z) by (apply Z.pow_pos_nonneg; lia).
  apply Z.mul_le_mono_nonneg_r; [lia|].
  rewrite <- (roundHalfEven_Z b) at 1. apply roundHalfEven_monotone.
  apply Qle_shift_div_l; [now apply pow2_pos|].
  now rewrite <- inject_Z_mult.
Qed.

Lemma roundScaled_upper (x : Q) :
  0 <= x -> (roundScaled x <= 2 ^ 53 * 2 ^ shiftOf x)%Z.
Proof.
  intros Hx. unfold roundScaled.
  assert (Hs : (0 <= shiftOf x)%Z) by (unfold shiftOf; lia).
  apply scaled_le; [exact Hs|].
  destruct (floor_bounds x) as [L U].
  assert (F0 : (0 <= Qfloor x)%Z).
  { rewrite <- (Qfloor_Z 0). now apply Qfloor_resp_le. }
  assert (B : (Qfloor x + 1 <= 2 ^ 53 * 2 ^ shiftOf x)%Z).
  { rewrite <- Z.pow_add_r by lia.
    destruct (Z.eq_dec (Qfloor x) 0) as [E|N].
    - rewrite E. assert ((2 ^ 0 <= 2 ^ (53 + shiftOf x))%Z)
        by (apply Z.pow_le_mono_r; lia). cbn in H. lia.
    - assert (P : (0 < Qfloor x)%Z) by lia.
      destruct (Z.log2_spec _ P) as [_ Hu].
      assert ((2 ^ Z.succ (Z.log2 (Qfloor x)) <= 2 ^ (53 + shiftOf x))%Z)
        by (apply Z.pow_le_mono_r; unfold shiftOf; lia).
      lia. }
  rewrite Zle_Qle, inject_Z_plus in B. change (inject_Z 1) with 1 in B. lra.
Qed.

Lemma roundScaled_lower (x : Q) :
  (0 < shiftOf x)%Z -> (2 ^ 52 * 2 ^ shiftOf x <= roundScaled x)%Z.
Proof.
  intros Hs. unfold roundScaled.
  apply scaled_ge; [lia|].
  destruct (floor_bounds x) as [L U].
  assert (E : Z.log2 (Qfloor x) = (52 + shiftOf x)%Z)
    by (unfold shiftOf in *; lia).
  assert (P : (0 < Qfloor x)%Z).
  { destruct (Z_lt_le_dec 0 (Qfloor x)) as [H|H]; [exact H|].
    rewrite (Z.log2_nonpos _ H) in E. lia. }
  destruct (Z.log2_spec _ P) as [Hl _]. rewrite E in Hl.
  rewrite Z.pow_add_r in Hl by lia.
  rewrite Zle_Qle in Hl. lra.
Qed.

Lemma roundScaled_monotone (x y : Q) :
  0 <= x -> x <= y -> (roundScaled x <= roundScaled y)%Z.
Proof.
  intros Hx H. pose proof (shiftOf_monotone _ _ H) as S.
  assert (S0 : (0 <= shiftOf x)%Z) by (unfold shiftOf; lia).
  destruct (Z.eq_dec (shiftOf x) (shiftOf y)) as [E|N].
  - unfold roundScaled. rewrite <- E.
    assert (P : (0 < 2 ^ shiftOf x)%Z) by (apply Z.pow_pos_nonneg; lia).
    apply Z.mul_le_mono_nonneg_r; [lia|]. apply roundHalfEven_monotone.
    apply Qmult_le_compat_r; [exact H|].
    apply Qlt_le_weak, Qinv_lt_0_compat. now apply pow2_pos.
  - eapply Z.le_trans; [apply roundScaled_upper, Hx|].
    eapply Z.le_trans; [|apply roundScaled_lower; lia].
    rewrite <- !Z.pow_add_r by lia. apply Z.pow_le_mono_r; lia.
Qed.

Lemma roundScaled_nonneg (x : Q) : 0 <= x -> (0 <= roundScaled x)%Z.
Proof.
  intros Hx. change 0%Z with (roundScaled 0).
  now apply roundScaled_monotone.
Qed.

Lemma tiny_pos : 0 < inject_Z tiny.
Proof. reflexivity. Qed.

Lemma double_sign (x : Q) :
  (0 <= x -> 0 <= double x) /\ (x <= 0 -> double x <= 0).
Proof.
  pose proof tiny_pos as T. unfold double.
  destruct (Qcompare_spec x 0) as [E|L|G]; rewrite ?Qred_correct.
  - split; intros; lra.
  - split; intros H; [lra|].
    assert (0 <= inject_Z (roundScaled (- x * inject_Z tiny)) / inject_Z tiny);
      [|lra].
    apply Qle_shift_div_l; [exact T|]. rewrite Qmult_0_l.
    change 0 with (inject_Z 0). rewrite <- Zle_Qle.
    apply roundScaled_nonneg. apply Qmult_le_0_compat; lra.
  - split; intros H; [|lra].
    apply Qle_shift_div_l; [exact T|]. rewrite Qmult_0_l.
    change 0 with (inject_Z 0). rewrite <- Zle_Qle.
    apply roundScaled_nonneg. apply Qmult_le_0_compat; lra.
Qed.

Lemma scaled_quotient_monotone (a b : Q) :
  0 <= a -> a <= b ->
  inject_Z (roundScaled (a * inject_Z tiny)) / inject_Z tiny
  <= inject_Z (roundScaled (b * inject_Z tiny)) / inject_Z tiny.
Proof.
  intros Ha H. pose proof tiny_pos as T.
  apply Qmult_le_compat_r;
    [|apply Qlt_le_weak, Qinv_lt_0_compat, T].
  rewrite <- Zle_Qle. apply roundScaled_monotone.
  - apply Qmult_le_0_compat; lra.
  - apply Qmult_le_compat_r; lra.
Qed.

Lemma double_monotone (x y : Q) : x <= y -> double x <= double y.
Proof.
  intros H. destruct (double_sign x) as [Px Nx].
  destruct (double_sign y) as [Py Ny].
  destruct (Qlt_le_dec x 0) as [Lx|Gx]; destruct (Qlt_le_dec 0 y) as [Gy|Ly].
  - eapply Qle_trans; [apply Nx|apply Py]; lra.
  - destruct (Qeq_dec y 0) as [E|N].
    + eapply Qle_trans; [apply Nx; lra|]. apply Py. lra.
    + unfold double.
      destruct (Qcompare_spec x 0) as [?|_|?]; try lra.
      destruct (Qcompare_spec y 0) as [?|_|?]; try lra.
      rewrite !Qred_correct. apply Qopp_le_compat.
      apply scaled_quotient_monotone; lra.
  - destruct (Qeq_dec x 0) as [E|N].
    + eapply Qle_trans; [apply Nx; lra|]. apply Py. lra.
    + unfold double.
      destruct (Qcompare_spec x 0) as [?|?|_]; try lra.
      destruct (Qcompare_spec y 0) as [?|?|_]; try lra.
      rewrite !Qred_correct. apply scaled_quotient_monotone; lra.
  - eapply Qle_trans; [apply Nx|apply Py]; lra.
Qed.

Lemma mul64_range (x w lo hi : Q) :
  0 <= w -> lo <= x <= hi ->
  double (lo * w) <= mul64 x w <= double (hi * w).
Proof.
  intros Hw [L U]. unfold mul64.
  split; apply double_monotone; apply Qmult_le_compat_r; assumption.
Qed.

Lemma add64_range (x y lx hx ly hy : Q) :
  lx <= x <= hx -> ly <= y <= hy ->
  double (lx + ly) <= add64 x y <= double (hx + hy).
Proof.
  intros [Lx Ux] [Ly Uy]. unfold add64.
  split; apply double_monotone; lra.
Qed.

Lemma sub64_range (c y ly hy : Q) :
  ly <= y <= hy -> double (c - hy) <= sub64 c y <= double (c - ly).
Proof.
  intros [Ly Uy]. unfold sub64. split; apply double_monotone; lra.
Qed.

Lemma double_range (x lo hi : Q) :
  lo <= x <= hi -> double lo <= double x <= double hi.
Proof. intros [L U]. split; now apply double_monotone. Qed.

(** The weighted double sum of sub-scores between 0 and 100 lies between
    the third term alone and 100. *)
Lemma weighted64_range (r : AnalysisResult) :
  0 <= c_score (complexity r) <= 100 ->
  0 <= m_score (maintainability r) <= 100 ->
  0 <= percentage (duplication r) <= 100 ->
  0 <= Spec.weighted64 r <= 100.
Proof.
  intros Hc Hm Hd. unfold Spec.weighted64.
  assert (W3 : 0 <= double (3 # 10)) by (vm_compute; discriminate).
  assert (W4 : 0 <= double (4 # 10)) by (vm_compute; discriminate).
  apply double_range in Hc, Hm, Hd.
  change (double 0) with 0 in Hc, Hm, Hd.
  replace (double 100) with 100 in Hc, Hm, Hd by (vm_compute; reflexivity).
  pose proof (mul64_range _ _ _ _ W3 Hc) as A.
  pose proof (mul64_range _ _ _ _ W4 Hm) as B.
  pose proof (sub64_range 100 _ _ _ Hd) as D.
  replace (double (0 * double (3 # 10))) with 0 in A
    by (vm_compute; reflexivity).
  replace (double (100 * double (3 # 10))) with 30 in A
    by (vm_compute; reflexivity).
  replace (double (0 * double (4 # 10))) with 0 in B
    by (vm_compute; reflexivity).
  replace (double (100 * double (4 # 10))) with 40 in B
    by (vm_compute; reflexivity).
  replace (double (100 - 100)) with 0 in D by (vm_compute; reflexivity).
  replace (double (100 - 0)) with 100 in D by (vm_compute; reflexivity).
  pose proof (mul64_range _ _ _ _ W3 D) as C.
  replace (double (0 * double (3 # 10))) with 0 in C
    by (vm_compute; reflexivity).
  replace (double (100 * double (3 # 10))) with 30 in C
    by (vm_compute; reflexivity).
  pose proof (add64_range _ _ _ _ _ _ A B) as AB.
  replace (double (0 + 0)) with 0 in AB by (vm_compute; reflexivity).
  replace (double (30 + 40)) with 70 in AB by (vm_compute; reflexivity).
  pose proof (add64_range _ _ _ _ _ _ AB C) as ABC.
  replace (double (0 + 0)) with 0 in ABC by (vm_compute; reflexivity).
  replace (double (70 + 30)) with 100 in ABC by (vm_compute; reflexivity).
  exact ABC.
Qed.

Lemma weighted64_monotone (r r' : AnalysisResult) :
  c_score (complexity r) <= c_score (complexity r') ->
  m_score (maintainability r) <= m_score (maintainability r') ->
  percentage (duplication r') <= percentage (duplication r) ->
  Spec.weighted64 r <= Spec.weighted64 r'.
Proof.
  intros Hc Hm Hd. unfold Spec.weighted64, add64, mul64, sub64.
  assert (W3 : 0 <= double (3 # 10)) by (vm_compute; discriminate).
  assert (W4 : 0 <= double (4 # 10)) by (vm_compute; discriminate).
  apply double_monotone in Hc, Hm, Hd.
  apply double_monotone. apply Qplus_le_compat.
  - apply double_monotone. apply Qplus_le_compat;
      apply double_monotone; apply Qmult_le_compat_r; assumption.
  - apply double_monotone. apply Qmult_le_compat_r; [|exact W3].
    apply double_monotone. lra.
Qed.

(** *** Double arithmetic is close to exact arithmetic *)

Lemma shift_below (x : Q) :
  (0 < shiftOf x)%Z -> inject_Z (2 ^ shiftOf x) * inject_Z (2 ^ 52) <= x.
Proof.
  intros Hs. destruct (floor_bounds x) as [L U].
  assert (E : Z.log2 (Qfloor x) = (52 + shiftOf x)%Z)
    by (unfold shiftOf in *; lia).
  assert (P : (0 < Qfloor x)%Z).
  { destruct (Z_lt_le_dec 0 (Qfloor x)) as [H|H]; [exact H|].
    rewrite (Z.log2_nonpos _ H) in E. lia. }
  destruct (Z.log2_spec _ P) as [Hl _]. rewrite E in Hl.
  rewrite Z.pow_add_r in Hl by lia.
  rewrite Zle_Qle, inject_Z_mult in Hl. lra.
Qed.

Lemma roundScaled_close (x : Q) :
  0 <= x ->
  x - (x * (1 # 2 ^ 53) + (1 # 2)) <= inject_Z (roundScaled x)
  /\ inject_Z (roundScaled x) <= x + (x * (1 # 2 ^ 53) + (1 # 2)).
Proof.
  intros Hx. unfold roundScaled.
  assert (S0 : (0 <= shiftOf x)%Z) by (unfold shiftOf; lia).
  assert (P : 0 < inject_Z (2 ^ shiftOf x))
    by (apply pow2_pos, Z.pow_pos_nonneg; lia).
  set (p := inject_Z (2 ^ shiftOf x)) in *.
  destruct (roundHalfEven_near (x / p)) as [L U].
  rewrite inject_Z_mult. fold p.
  set (h := inject_Z (roundHalfEven (x / p))) in *.
  assert (E : x / p * p == x) by (field; lra).
  assert (L' : (x / p - (1 # 2)) * p <= h * p)
    by (apply Qmult_le_compat_r; lra).
  assert (U' : h * p <= (x / p + (1 # 2)) * p)
    by (apply Qmult_le_compat_r; lra).
  assert (B : p * (1 # 2) <= x * (1 # 2 ^ 53) + (1 # 2)).
  { destruct (Z.eq_dec (shiftOf x) 0) as [Z0|N0].
    - unfold p. rewrite Z0. change (inject_Z (2 ^ 0)) with 1.
      assert (0 <= x * (1 # 2 ^ 53)) by (apply Qmult_le_0_compat; [lra|discriminate]).
      lra.
    - assert (Hs : (0 < shiftOf x)%Z) by lia.
      pose proof (shift_below x Hs) as K. fold p in K.
      change (inject_Z (2 ^ 52)) with (4503599627370496 # 1) in K.
      change (1 # 2 ^ 53) with (1 # 9007199254740992). lra. }
  setoid_replace ((x / p - (1 # 2)) * p) with (x / p * p - p * (1 # 2)) in L' by ring.
  setoid_replace ((x / p + (1 # 2)) * p) with (x / p * p + p * (1 # 2)) in U' by ring.
  rewrite E in L', U'. split; lra.
Qed.

Lemma double_close (x : Q) :
  0 <= x <= 128 ->
  x - (1 # 2 ^ 45) <= double x <= x + (1 # 2 ^ 45).
Proof.
  intros [H0 H1]. pose proof tiny_pos as T. unfold double.
  destruct (Qcompare_spec x 0) as [E|L|G]; rewrite ?Qred_correct.
  - rewrite E. split; discriminate.
  - lra.
  - set (t := inject_Z tiny) in *.
    assert (X0 : 0 <= x * t) by (apply Qmult_le_0_compat; lra).
    destruct (roundScaled_close (x * t) X0) as [Lo Up].
    set (R := inject_Z (roundScaled (x * t))) in *.
    assert (Eta : (1 # 2) / t <= 1 # 2 ^ 46) by (vm_compute; discriminate).
    assert (U : x * (1 # 2 ^ 53) <= 1 # 2 ^ 46).
    { change (1 # 2 ^ 53) with (1 # 9007199254740992).
      change (1 # 2 ^ 46) with (1 # 70368744177664). lra. }
    assert (D : (1 # 2 ^ 46) + (1 # 2 ^ 46) == 1 # 2 ^ 45) by reflexivity.
    split.
    + apply Qle_shift_div_l; [exact T|].
      eapply Qle_trans; [|exact Lo].
      setoid_replace (x * t - (x * t * (1 # 2 ^ 53) + (1 # 2)))
        with ((x - (x * (1 # 2 ^ 53) + (1 # 2) / t)) * t) by (field; lra).
      apply Qmult_le_compat_r; lra.
    + apply Qle_shift_div_r; [exact T|].
      eapply Qle_trans; [exact Up|].
      setoid_replace (x * t + (x * t * (1 # 2 ^ 53) + (1 # 2)))
        with ((x + (x * (1 # 2 ^ 53) + (1 # 2) / t)) * t) by (field; lra).
      apply Qmult_le_compat_r; lra.
Qed.

Ltac double_value q :=
  let v := eval vm_compute in (double q) in
  replace (double q) with v in * by (vm_compute; reflexivity).

Ltac close_to x H0 H :=
  let S := fresh "S" in
  pose proof (double_sign x) as [S _];
  assert (H0 : 0 <= double x) by (apply S; lra); clear S;
  assert (H : x - (1 # 2 ^ 45) <= double x <= x + (1 # 2 ^ 45))
    by (apply double_close; lra);
  change (1 # 2 ^ 45) with (1 # 35184372088832) in H.

(** For sub-scores between 0 and 100 the double sum differs from the exact
    weighted sum by less than 2^-36. *)
Lemma weighted64_close (r : AnalysisResult) :
  0 <= c_score (complexity r) <= 100 ->
  0 <= m_score (maintainability r) <= 100 ->
  0 <= percentage (duplication r) <= 100 ->
  Spec.weighted r - (1 # 2 ^ 36) <= Spec.weighted64 r
  /\ Spec.weighted64 r <= Spec.weighted r + (1 # 2 ^ 36).
Proof.
  unfold Spec.weighted64, Spec.weighted, add64, mul64, sub64.
  set (c := c_score (complexity r)). set (m := m_score (maintainability r)).
  set (d := percentage (duplication r)). intros Hc Hm Hd.
  double_value (3 # 10). double_value (4 # 10).
  close_to c Hc0 Hc1. set (c' := double c) in *.
  close_to m Hm0 Hm1. set (m' := double m) in *.
  close_to d Hd0 Hd1.
  assert (Hd2 : double d <= double 100) by (apply double_monotone; lra).
  replace (double 100) with 100 in Hd2 by (vm_compute; reflexivity).
  set (d' := double d) in *.
  match goal with |- context [double (c' * ?w)] =>
    close_to (c' * w) Hp0 Hp1; set (p := double (c' * w)) in * end.
  match goal with |- context [double (m' * ?w)] =>
    close_to (m' * w) Hq0 Hq1; set (q := double (m' * w)) in * end.
  close_to (100 - d') Hs0 Hs1. set (s := double (100 - d')) in *.
  match goal with |- context [double (s * ?w)] =>
    close_to (s * w) Ht0 Ht1; set (t := double (s * w)) in * end.
  close_to (p + q) Ha0 Ha1. set (a := double (p + q)) in *.
  close_to (a + t) Hb0 Hb1. set (b := double (a + t)) in *.
  change (1 # 2 ^ 36) with (1 # 68719476736).
  split; lra.
Qed.

(** C8, as the code has it: the overall score is the integer that
    Math.round gives for complexity.score * 0.3 + maintainability.score *
    0.4 + (100 - duplication.percentage) * 0.3 with its products and sums
    in double arithmetic; for sub-scores between 0 and 100 it lies within
    1/2 + 2^-36 of the exact weighted sum.  Its label is "Excellent" iff it
    is at least 80, "Good" iff in [70, 80), "Fair" iff in [50, 70), "Needs
    Improvement" otherwise (below 50). *)
Theorem overall_score_and_health (r : AnalysisResult) :
  (exists n : Z,
      Route.calculateOverallScore r = inject_Z n
      /\ Spec.isRound (Spec.weighted64 r) n
      /\ (0 <= c_score (complexity r) <= 100 ->
          0 <= m_score (maintainability r) <= 100 ->
          0 <= percentage (duplication r) <= 100 ->
          inject_Z n - (1 # 2) - (1 # 2 ^ 36) <= Spec.weighted r
          /\ Spec.weighted r < inject_Z n + (1 # 2) + (1 # 2 ^ 36)))
  /\ (Route.getHealthStatus (Route.calculateOverallScore r) = "Excellent"
      <-> 80 <= Route.calculateOverallScore r)
  /\ (Route.getHealthStatus (Route.calculateOverallScore r) = "Good"
      <-> 70 <= Route.calculateOverallScore r
          /\ Route.calculateOverallScore r < 80)
  /\ (Route.getHealthStatus (Route.calculateOverallScore r) = "Fair"
      <-> 50 <= Route.calculateOverallScore r
          /\ Route.calculateOverallScore r < 70)
  /\ (Route.getHealthStatus (Route.calculateOverallScore r)
      = "Needs Improvement"
      <-> ~ 50 <= Route.calculateOverallScore r).
Proof.
  split.
  - destruct (Math_round_isRound (Spec.weighted64 r)) as (n & E & R).
    exists n. split; [exact E|]. split; [exact R|].
    intros Hc Hm Hd. destruct (weighted64_close r Hc Hm Hd) as [Lo Up].
    destruct R as [R1 R2]. split; lra.
  - destruct (health_bands (Route.calculateOverallScore r))
      as (E & G & F & N).
    repeat split; try tauto.
    + intros H. apply N in H. lra.
    + intros H. apply N. lra.
Qed.

(** C8 as stated fails: for the scores 6 and 81 and 49 percent duplication
    the exact weighted sum is 49.5, which rounds to 50, a "Fair" score; the
    double sum lies just below 49.5, so the overall score is 49, and its
    label is "Needs Improvement". *)
Lemma overall_score_below_exact_round :
  Spec.weighted Samples.tie == 99 # 2
  /\ Spec.isRound (Spec.weighted Samples.tie) 50
  /\ Route.getHealthStatus 50 = "Fair"
  /\ Spec.weighted64 Samples.tie < 99 # 2
  /\ Route.calculateOverallScore Samples.tie == 49
  /\ Route.getHealthStatus (Route.calculateOverallScore Samples.tie)
     = "Needs Improvement".
Proof. vm_compute. repeat split; congruence. Qed.

(** ** The result of [analyzeCode] *)

Lemma mapFiles_files (projectPath : string) (files : list Discovered) :
  forall l, mapFiles projectPath files = Resolved l ->
  map fa_file l = map (fun f => replace projectPath "" (fst f)) files.
Proof.
  induction files as [|f fs IH]; cbn; intros l H.
  - now inversion H.
  - unfold analyzeFile in H. destruct (snd f); [|discriminate].
    destruct (mapFiles projectPath fs) as [l'|]; [|discriminate].
    inversion H; subst l. cbn. f_equal. now apply IH.
Qed.

(** The shape of every result: the scores and details come from the
    per-file records, duplication is the constant empty summary. *)
Lemma analyzeCode_Resolved (projectPath : string) (root : Listing)
      (r : AnalysisResult) :
  analyzeCode projectPath root = Resolved r ->
  exists l,
    mapFiles projectPath (getAllFiles projectPath root recognized)
    = Resolved l
    /\ c_details (complexity r)
       = map (fun f => {| cd_file := fa_file f;
                          cd_complexity := fa_complexity f;
                          cd_maintainability := fa_maintainability f |}) l
    /\ m_details (maintainability r)
       = map (fun f => {| md_file := fa_file f;
                          md_score := fa_maintainability f;
                          md_issues := [] |}) l
    /\ duplication r = {| percentage := 0; instances := [] |}.
Proof.
  unfold analyzeCode. intros H.
  destruct (mapFiles projectPath _) as [l|]; [|discriminate].
  inversion H; subst r. exists l. repeat split.
Qed.

(** With every file readable, both detail arrays have one element per
    discovered file. *)
Lemma details_cover_discovered (projectPath : string) (root : Listing)
      (r : AnalysisResult) :
  analyzeCode projectPath root = Resolved r ->
  List.length (c_details (complexity r))
  = List.length (getAllFiles projectPath root recognized)
  /\ List.length (m_details (maintainability r))
     = List.length (getAllFiles projectPath root recognized).
Proof.
  intros H. destruct (analyzeCode_Resolved _ _ _ H) as (l & Hl & Hc & Hm & _).
  apply mapFiles_files in Hl. apply (f_equal (@List.length _)) in Hl.
  rewrite !length_map in Hl. rewrite Hc, Hm, !length_map. now split.
Qed.

Lemma filter_without_issues (ds : list MaintainabilityDetail) :
  Forall (fun d => md_issues d = []) ds ->
  filter (fun detail => (0 <? List.length (md_issues detail))%nat) ds = [].
Proof.
  induction 1 as [|d ds Hd _ IH]; [reflexivity|].
  cbn [filter]. rewrite Hd. exact IH.
Qed.

Lemma count_without_issues (ds : list MaintainabilityDetail) :
  Forall (fun d => md_issues d = []) ds ->
  fold_left
    (fun (count : nat) detail =>
       (count + (if 0 <? List.length (md_issues detail) then 1 else 0))%nat)
    ds O = O.
Proof.
  induction 1 as [|d ds Hd _ IH]; [reflexivity|].
  cbn [fold_left]. rewrite Hd. exact IH.
Qed.

(** C10: no element of maintainability.details of a result of
    [analyzeCode] carries an issue, so the per-file rule of
    [generateRecommendations] adds nothing: every recommendation is one of
    the three threshold messages. *)
Theorem no_issue_no_file_recommendation (projectPath : string)
        (root : Listing) (r : AnalysisResult) :
  analyzeCode projectPath root = Resolved r ->
  Forall (fun d => md_issues d = []) (m_details (maintainability r))
  /\ Route.fileRecommendations r = []
  /\ Route.countCriticalIssues r = O
  /\ forall s, In s (Route.generateRecommendations r) ->
               s = Route.recComplexity \/ s = Route.recMaintainability
               \/ s = Route.recDuplication.
Proof.
  intros H. destruct (analyzeCode_Resolved _ _ _ H) as (l & _ & _ & Hm & _).
  assert (HF : Forall (fun d => md_issues d = []) (m_details (maintainability r))).
  { rewrite Hm. apply Forall_forall. intros d Hd.
    apply in_map_iff in Hd. destruct Hd as (f & <- & _). reflexivity. }
  assert (HR : Route.fileRecommendations r = []).
  { unfold Route.fileRecommendations.
    now rewrite (filter_without_issues _ HF). }
  repeat split; [exact HF | exact HR | |].
  - now apply count_without_issues.
  - unfold Route.generateRecommendations. rewrite HR, app_nil_r. cbn [app].
    intros s Hs.
    destruct (Route.Qlt_bool 70 _), (Route.Qlt_bool _ 65),
      (Route.Qlt_bool 15 _); cbn in Hs; intuition.
Qed.

Lemma no_issue_no_file_recommendation_witness :
  exists r, analyzeCode "/repo" Samples.sampleRepo = Resolved r
            /\ Forall (fun d => md_issues d = []) (m_details (maintainability r))
            /\ Route.fileRecommendations r = [].
Proof.
  eexists. split; [reflexivity|].
  split; eapply (no_issue_no_file_recommendation "/repo" Samples.sampleRepo);
    reflexivity.
Defined.

(** Duplication is the same constant in every result. *)
Lemma duplication_always_empty (projectPath : string) (root : Listing)
      (r : AnalysisResult) :
  analyzeCode projectPath root = Resolved r ->
  instances (duplication r) = [] /\ percentage (duplication r) = 0.
Proof.
  intros H. destruct (analyzeCode_Resolved _ _ _ H) as (l & _ & _ & _ & Hd).
  now rewrite Hd.
Qed.

(** A walk that finds no file, whatever the reason, resolves with the empty
    result. *)
Lemma no_files_resolves_empty (projectPath : string) (root : Listing) :
  getAllFiles projectPath root recognized = [] ->
  analyzeCode projectPath root = Resolved Samples.emptyResult.
Proof. unfold analyzeCode. now intros ->. Qed.

(** [analyzeCode] is rejected exactly when a discovered file cannot be
    read. *)
Lemma mapFiles_Rejected (projectPath : string) (files : list Discovered) :
  (exists err, mapFiles projectPath files = Rejected err)
  <-> exists path err, In (path, ReadThrows err) files.
Proof.
  induction files as [|[path data] fs IH]; cbn.
  - split; [intros [err H]; discriminate | intros (p & e & [])].
  - unfold analyzeFile; cbn. destruct data as [content|err0].
    + destruct (mapFiles projectPath fs) as [l|err1].
      * split; [intros [err H]; discriminate|].
        intros (p & e & [H|H]); [inversion H|].
        destruct IH as [_ IH]. destruct IH as [err' H']; [eauto|discriminate].
      * split; [|eauto]. intros _.
        destruct IH as [IH _]. destruct IH as (p & e & H); eauto.
    + split; eauto.
Qed.

Lemma analyzeCode_Rejected (projectPath : string) (root : Listing) :
  (exists err, analyzeCode projectPath root = Rejected err)
  <-> exists path err,
        In (path, ReadThrows err) (getAllFiles projectPath root recognized).
Proof.
  rewrite <- (mapFiles_Rejected projectPath). unfold analyzeCode.
  destruct (mapFiles projectPath _) as [l|err].
  - split; intros [e H]; discriminate H.
  - split; intros _; eauto.
Qed.

(** ** Discovery order *)

(** The walk is depth first in listing order: the files of a listing are
    those of its entries one after the other, and a visible directory
    stands for the files found below it. *)
Lemma getAllFiles_cons (dir : string) (e : Dirent) (es : list Dirent)
      (extensions : list string) :
  getAllFiles dir (Some (e :: es)) extensions
  = getAllFiles_entry extensions dir e ++ getAllFiles dir (Some es) extensions.
Proof. reflexivity. Qed.

Lemma getAllFiles_directory (dir name : string) (listing : Listing)
      (extensions : list string) :
  startsWith name "." = false ->
  getAllFiles_entry extensions dir (DirEnt name listing)
  = getAllFiles (join dir name) listing extensions.
Proof.
  intros H. cbn [getAllFiles_entry]. rewrite H. cbn [negb].
  destruct listing as [es|]; [|reflexivity].
  unfold getAllFiles. induction es as [|e es IH]; [reflexivity|].
  cbn [flat_map]. now rewrite IH.
Qed.

Lemma getAllFiles_hidden (dir name : string) (listing : Listing)
      (extensions : list string) :
  startsWith name "." = true ->
  getAllFiles_entry extensions dir (DirEnt name listing) = [].
Proof. intros H. cbn [getAllFiles_entry]. now rewrite H. Qed.

Lemma Dirent_nested_ind (P : Dirent -> Prop) :
  (forall name data, P (FileEnt name data)) ->
  (forall name entries, Forall P entries -> P (DirEnt name (Some entries))) ->
  (forall name, P (DirEnt name None)) ->
  (forall name, P (OtherEnt name)) ->
  forall e, P e.
Proof.
  intros Hf Hd Hn Ho. fix IH 1. intros [name data|name [entries|]|name].
  - apply Hf.
  - apply Hd. induction entries as [|e es IHes]; constructor;
      [apply IH | exact IHes].
  - apply Hn.
  - apply Ho.
Qed.

(** The walk of one entry, put in front of the walk of the entries after
    it, is the depth-first discovery of the longer listing. *)
Lemma getAllFiles_entry_depthFirst (extensions : list string) (e : Dirent) :
  forall dir entries found,
  Spec.depthFirst extensions dir entries found ->
  Spec.depthFirst extensions dir (e :: entries)
                  (getAllFiles_entry extensions dir e ++ found).
Proof.
  induction e as [name data|name below IH|name|name]
    using Dirent_nested_ind; intros dir entries found H.
  - cbn [getAllFiles_entry].
    destruct (includes extensions (extname name)) eqn:E; cbn [app].
    + now apply Spec.df_file.
    + now apply Spec.df_other_file.
  - destruct (startsWith name ".") eqn:Hh.
    + rewrite getAllFiles_hidden by exact Hh. now apply Spec.df_hidden.
    + rewrite getAllFiles_directory by exact Hh.
      apply Spec.df_directory; [exact Hh| |exact H].
      unfold getAllFiles.
      induction IH as [|e es He _ IHes]; cbn [flat_map];
        [constructor | now apply He].
  - destruct (startsWith name ".") eqn:Hh.
    + rewrite getAllFiles_hidden by exact Hh. now apply Spec.df_hidden.
    + cbn [getAllFiles_entry]. rewrite Hh. now apply Spec.df_unreadable.
  - now apply Spec.df_not_a_file.
Qed.

Lemma getAllFiles_discovery (extensions : list string) (dir : string)
      (root : Listing) :
  Spec.discovery extensions dir root (getAllFiles dir root extensions).
Proof.
  destruct root as [entries|]; [|reflexivity].
  cbn [Spec.discovery getAllFiles].
  induction entries as [|e es IH]; cbn [flat_map]; [constructor|].
  now apply getAllFiles_entry_depthFirst.
Qed.

(** A tree has one depth-first discovery only. *)
Lemma depthFirst_functional (extensions : list string) (dir : string)
      (entries : list Dirent) (found : list Discovered) :
  Spec.depthFirst extensions dir entries found ->
  forall found', Spec.depthFirst extensions dir entries found' ->
                 found' = found.
Proof.
  induction 1 as [dir|dir name data entries found E _ IH
                  |dir name data entries found E _ IH
                  |dir name below entries inside found E _ IHb _ IH
                  |dir name entries found E _ IH
                  |dir name listing entries found E _ IH
                  |dir name entries found _ IH];
    intros found' H'; inversion H'; subst; try congruence;
    try (f_equal; now apply IH); try (now apply IH).
  rewrite (IHb inside0) by eassumption.
  rewrite (IH found0) by eassumption. reflexivity.
Qed.

(** C7, as the code has it: both details arrays list the files in discovery
    order, which is the one depth-first order in which the directories list
    their entries (the files below a subdirectory in the place of that
    subdirectory), so that an unchanged tree gives the same order again;
    nothing sorts the paths. *)
Theorem details_in_discovery_order (projectPath : string) (root : Listing)
        (r : AnalysisResult) :
  analyzeCode projectPath root = Resolved r ->
  exists found,
    Spec.discovery recognized projectPath root found
    /\ (forall found', Spec.discovery recognized projectPath root found' ->
                       found' = found)
    /\ map cd_file (c_details (complexity r))
       = map (fun f => replace projectPath "" (fst f)) found
    /\ map md_file (m_details (maintainability r))
       = map (fun f => replace projectPath "" (fst f)) found.
Proof.
  intros H. exists (getAllFiles projectPath root recognized).
  pose proof (getAllFiles_discovery recognized projectPath root) as D.
  split; [exact D|]. split.
  - destruct root as [entries|]; cbn [Spec.discovery] in *.
    + intros found' H'. now apply (depthFirst_functional _ _ _ _ D).
    + intros found' ->. reflexivity.
  - destruct (analyzeCode_Resolved _ _ _ H) as (l & Hl & Hc & Hm & _).
    apply mapFiles_files in Hl. rewrite Hc, Hm, !map_map. cbn.
    split; exact Hl.
Qed.

Lemma details_in_discovery_order_witness :
  exists r, analyzeCode "/repo" Samples.nested = Resolved r
            /\ exists found,
                 Spec.discovery recognized "/repo" Samples.nested found
                 /\ map cd_file (c_details (complexity r))
                    = map (fun f => replace "/repo" "" (fst f)) found.
Proof.
  eexists. split; [reflexivity|].
  destruct (details_in_discovery_order "/repo" Samples.nested _ eq_refl)
    as (found & D & _ & Hc & _).
  exists found. split; [exact D | exact Hc].
Defined.

(** C7 as stated fails: with every directory listed in name order, the file
    below directory [a] is discovered before the file [a.ts], while
    ["/a.ts"] comes before ["/a/z.ts"] in lexicographic order. *)
Lemma discovery_not_lexicographic :
  match Samples.nested with
  | Some entries => Spec.lexSorted (map entryName entries) = true
  | None => False
  end
  /\ match analyzeCode "/repo" Samples.nested with
     | Resolved r =>
         map cd_file (c_details (complexity r)) = ["/a/z.ts"; "/a.ts"]
         /\ Spec.lexSorted (map cd_file (c_details (complexity r))) = false
     | Rejected _ => False
     end.
Proof. repeat split. Qed.

(** ** Where the engine falls short of its tests *)

(** C1: on two files that share a function with a body of four lines the
    engine reports no duplication instance and a percentage of 0. *)
Theorem duplicate_not_reported :
  match analyzeCode "/repo" Samples.duplicated with
  | Resolved r =>
      List.length (c_details (complexity r)) = 2%nat
      /\ instances (duplication r) = []
      /\ percentage (duplication r) == 0
  | Rejected _ => False
  end.
Proof. repeat split. Qed.

(** C2: on a root that does not exist, on an empty root and on a root
    without any recognized file, the engine resolves with the empty result
    instead of failing. *)
Theorem empty_project_not_rejected :
  analyzeCode "/repo" None = Resolved Samples.emptyResult
  /\ analyzeCode "/repo" (Some []) = Resolved Samples.emptyResult
  /\ analyzeCode "/repo" Samples.noSources = Resolved Samples.emptyResult.
Proof. repeat split. Qed.

(** C3: the result of the test project has the properties [complexity],
    [duplication] and [maintainability] and no [overview]. *)
Theorem overview_missing :
  match analyzeCode "/repo" Samples.sampleRepo with
  | Resolved r =>
      List.length (c_details (complexity r)) = 4%nat
      /\ List.length (m_details (maintainability r)) = 4%nat
      /\ getProperty "overview" (toObject r) = None
      /\ match toObject r with
         | VObj props =>
             map fst props = ["complexity"; "duplication"; "maintainability"]
         | _ => False
         end
  | Rejected _ => False
  end.
Proof. repeat split. Qed.

(** C4: with one of two source files unreadable, the run is rejected with
    the read error of that file; no result is returned. *)
Theorem unreadable_file_aborts :
  List.length (getAllFiles "/repo" Samples.oneUnreadable recognized) = 2%nat
  /\ analyzeCode "/repo" Samples.oneUnreadable
     = Rejected "EACCES: permission denied, open '/repo/b.ts'".
Proof. repeat split. Qed.

(** * Further properties of the engine *)

(** ** Ranges of the per-file metrics *)

Lemma ofNat_le (a b : nat) : ofNat a <= ofNat b <-> (a <= b)%nat.
Proof. unfold ofNat. rewrite <- Zle_Qle. lia. Qed.

Lemma hundredfold_le (c n : nat) :
  (0 < n)%nat -> (100 <= ofNat c / ofNat n * 100 <-> (n <= c)%nat).
Proof.
  intros Hn. pose proof (ofNat_pos n Hn) as Pn. rewrite <- ofNat_le.
  assert (E : ofNat c == ofNat c / ofNat n * ofNat n)
    by (field; intros H; rewrite H in Pn; discriminate).
  split; intros H.
  - rewrite E. setoid_replace (ofNat n) with (1 * ofNat n) at 1 by ring.
    apply Qmult_le_compat_r; lra.
  - assert (1 <= ofNat c / ofNat n); [|lra].
    apply Qle_shift_div_l; lra.
Qed.

Lemma quotient_nonneg (c n : nat) : 0 <= ofNat c / ofNat n * 100.
Proof.
  destruct n as [|n].
  - unfold Qdiv. change (/ ofNat 0) with 0. lra.
  - assert (0 <= ofNat c / ofNat (S n)); [|lra].
    apply Qle_shift_div_l; [apply ofNat_pos; lia|].
    rewrite Qmult_0_l. change 0 with (ofNat 0).
    apply ofNat_le. lia.
Qed.

Lemma zero_quotient (n : nat) : ofNat 0 / ofNat n * 100 == 0.
Proof. change (ofNat 0) with 0. unfold Qdiv. ring. Qed.

Lemma quotient_zero (c n : nat) :
  (0 < n)%nat -> (ofNat c / ofNat n * 100 == 0 <-> c = O).
Proof.
  intros Hn. pose proof (ofNat_pos n Hn) as Pn. split.
  - intros H. destruct c as [|c]; [reflexivity|].
    pose proof (density_step O n Hn) as S1.
    pose proof (zero_quotient n) as Z0.
    assert (L : ofNat 1 / ofNat n * 100 <= ofNat (S c) / ofNat n * 100).
    { apply Qmult_le_compat_r; [|lra]. unfold Qdiv.
      apply Qmult_le_compat_r; [apply ofNat_le; lia|].
      apply Qlt_le_weak, Qinv_lt_0_compat, Pn. }
    lra.
  - intros ->. apply zero_quotient.
Qed.

Lemma complexity_range (content : jsString) :
  0 < calculateBasicComplexity content <= 100.
Proof.
  unfold calculateBasicComplexity, Math_min. cbv zeta. split.
  - apply Q.min_glb_lt; [reflexivity|].
    pose proof (density_step O _ (lineCount_pos content)) as S1.
    pose proof (zero_quotient (List.length (split content))) as Z0.
    assert (L : ofNat 1 / ofNat (List.length (split content)) * 100
                <= ofNat (baseComplexity content)
                   / ofNat (List.length (split content)) * 100).
    { apply Qmult_le_compat_r; [|lra]. unfold Qdiv.
      apply Qmult_le_compat_r; [apply ofNat_le; unfold baseComplexity; lia|].
      apply Qlt_le_weak, Qinv_lt_0_compat, ofNat_pos, lineCount_pos. }
    lra.
  - apply Q.le_min_l.
Qed.

Lemma maintainability_range (content : jsString) :
  0 <= calculateBasicMaintainability content <= 100.
Proof.
  unfold calculateBasicMaintainability, Math_min. cbv zeta. split.
  - apply Q.min_glb; [discriminate | apply quotient_nonneg].
  - apply Q.le_min_l.
Qed.

(** X1: the complexity of every text is above 0 and at most 100: no text,
    not even one without any branch, scores 0. *)
Theorem complexity_in_range (content : jsString) :
  0 < calculateBasicComplexity content
  /\ calculateBasicComplexity content <= 100.
Proof. apply complexity_range. Qed.

(** X2: the maintainability of every text is between 0 and 100. *)
Theorem maintainability_in_range (content : jsString) :
  0 <= calculateBasicMaintainability content
  /\ calculateBasicMaintainability content <= 100.
Proof. apply maintainability_range. Qed.

(** X3: the complexity is at the cap of 100 exactly when the text has no
    more lines than one plus its branch constructs. *)
Theorem complexity_capped_iff (content : jsString) :
  calculateBasicComplexity content == 100
  <-> (List.length (split content) <= baseComplexity content)%nat.
Proof.
  unfold calculateBasicComplexity, Math_min. cbv zeta.
  rewrite Q.min_l_iff. apply hundredfold_le, lineCount_pos.
Qed.

Lemma split_without_LF (content : jsString) :
  ~ In LF content -> List.length (split content) = 1%nat.
Proof.
  induction content as [|c r IH]; [reflexivity|]. intros H.
  rewrite split_cons_length.
  - apply IH. intros I. apply H. now right.
  - apply N.eqb_neq. intros ->. apply H. now left.
Qed.

(** X4: a text without a line feed has complexity 100, whatever it
    holds. *)
Theorem single_line_text_is_capped (content : jsString) :
  ~ In LF content -> calculateBasicComplexity content == 100.
Proof.
  intros H. unfold calculateBasicComplexity, Math_min. cbv zeta.
  rewrite Q.min_l_iff. apply hundredfold_le; [apply lineCount_pos|].
  rewrite (split_without_LF _ H). unfold baseComplexity. lia.
Qed.

Lemma single_line_text_is_capped_witness :
  calculateBasicComplexity (lit "const answer = 42;") == 100.
Proof.
  apply single_line_text_is_capped. cbn. intros H.
  repeat (destruct H as [H|H]; [discriminate H|]). exact H.
Defined.

(** X5: the maintainability is 0 exactly when the text has no comment
    match and no function declaration match, and 100 exactly when these
    matches are at least as many as the lines. *)
Theorem maintainability_zero_and_cap (content : jsString) :
  (calculateBasicMaintainability content == 0
   <-> commentCount content = O /\ functionCount content = O)
  /\ (calculateBasicMaintainability content == 100
      <-> (List.length (split content)
           <= commentCount content + functionCount content)%nat).
Proof.
  unfold calculateBasicMaintainability, Math_min. cbv zeta. split.
  - pose proof (quotient_zero (commentCount content + functionCount content)
                  _ (lineCount_pos content)) as Z.
    pose proof (quotient_nonneg (commentCount content + functionCount content)
                  (List.length (split content))) as P.
    split.
    + intros H. cut ((commentCount content + functionCount content)%nat = O);
        [lia|]. apply Z.
      destruct (Q.min_dec 100
        (ofNat (commentCount content + functionCount content)
         / ofNat (List.length (split content)) * 100)) as [E|E];
        rewrite E in H; [discriminate H | exact H].
    + intros [Hc Hf]. rewrite Hc, Hf. reflexivity.
  - rewrite Q.min_l_iff. apply hundredfold_le, lineCount_pos.
Qed.

(** ** Aggregation *)

Lemma ofNat_S (n : nat) : ofNat (S n) == ofNat n + 1.
Proof.
  unfold ofNat. rewrite Nat2Z.inj_succ, <- Z.add_1_r, inject_Z_plus.
  reflexivity.
Qed.

Lemma sum_bounds (lo hi : Q) (scores : list Q) :
  Forall (fun x => lo <= x <= hi) scores ->
  forall a, a + ofNat (List.length scores) * lo <= fold_left Qplus scores a
            /\ fold_left Qplus scores a
               <= a + ofNat (List.length scores) * hi.
Proof.
  induction 1 as [|x l [Hlo Hhi] _ IH]; intros a.
  - cbn [fold_left List.length]. change (ofNat 0) with 0. split; lra.
  - cbn [fold_left List.length]. destruct (IH (a + x)) as [L U].
    rewrite ofNat_S. split.
    + eapply Qle_trans; [|exact L].
      setoid_replace ((ofNat (List.length l) + 1) * lo)
        with (ofNat (List.length l) * lo + lo) by ring.
      lra.
    + eapply Qle_trans; [exact U|].
      setoid_replace ((ofNat (List.length l) + 1) * hi)
        with (ofNat (List.length l) * hi + hi) by ring.
      lra.
Qed.

Lemma Math_round_between (lo hi : Z) (x : Q) :
  inject_Z lo <= x <= inject_Z hi ->
  inject_Z lo <= Math_round x <= inject_Z hi.
Proof.
  intros [L U]. unfold Math_round. rewrite <- !Zle_Qle. split.
  - rewrite <- (Qfloor_Z lo). apply Qfloor_resp_le. lra.
  - pose proof (Qfloor_le (x + (1 # 2))) as F.
    assert (S1 : inject_Z (Qfloor (x + (1 # 2))) < inject_Z (hi + 1)).
    { rewrite inject_Z_plus. change (inject_Z 1) with 1. lra. }
    rewrite <- Zlt_Qlt in S1. lia.
Qed.

Lemma rounded_mean_bounds (lo hi : Z) (x : Q) (l : list Q) :
  Forall (fun x => inject_Z lo <= x <= inject_Z hi) (x :: l) ->
  inject_Z lo <= calculateOverallScore (x :: l) <= inject_Z hi.
Proof.
  intros HF. unfold calculateOverallScore. apply Math_round_between.
  destruct (sum_bounds _ _ _ HF 0) as [L U].
  assert (P : 0 < ofNat (List.length (x :: l)))
    by (apply ofNat_pos; cbn; lia).
  split.
  - apply Qle_shift_div_l; [exact P|]. rewrite Qmult_comm. lra.
  - apply Qle_shift_div_r; [exact P|]. rewrite Qmult_comm. lra.
Qed.

(** X6: the score of a non-empty array of values that all lie between two
    integers is an integer between the same two; the score of the empty
    array is 0. *)
Theorem rounded_mean_within_bounds (lo hi : Z) (scores : list Q) :
  scores <> [] ->
  Forall (fun x => inject_Z lo <= x <= inject_Z hi) scores ->
  inject_Z lo <= calculateOverallScore scores <= inject_Z hi
  /\ exists n : Z, calculateOverallScore scores = inject_Z n.
Proof.
  intros Hne HF. destruct scores as [|x l]; [congruence|].
  split; [now apply rounded_mean_bounds|].
  unfold calculateOverallScore. eexists; reflexivity.
Qed.

Lemma rounded_mean_within_bounds_witness :
  0 <= calculateOverallScore [25; 100; (50 # 3)] <= 100.
Proof.
  apply (rounded_mean_within_bounds 0 100); [discriminate|].
  repeat constructor; discriminate.
Defined.

Lemma mapFiles_metrics (projectPath : string) (files : list Discovered) :
  forall l, mapFiles projectPath files = Resolved l ->
  Forall (fun a => exists content,
            fa_complexity a = calculateBasicComplexity content
            /\ fa_maintainability a = calculateBasicMaintainability content)
         l.
Proof.
  induction files as [|f fs IH]; cbn; intros l H.
  - inversion H. constructor.
  - unfold analyzeFile in H. destruct (snd f) as [content|]; [|discriminate].
    destruct (mapFiles projectPath fs) as [l'|]; [|discriminate].
    inversion H; subst l. constructor; [|now apply IH].
    exists content. now split.
Qed.

Lemma score_of_percentages (scores : list Q) :
  Forall (fun x => 0 <= x <= 100) scores ->
  0 <= calculateOverallScore scores <= 100.
Proof.
  intros HF. destruct scores as [|x l].
  - cbn. split; discriminate.
  - now apply (rounded_mean_bounds 0 100).
Qed.

Lemma analysis_score_ranges (projectPath : string) (root : Listing)
      (r : AnalysisResult) :
  analyzeCode projectPath root = Resolved r ->
  0 <= c_score (complexity r) <= 100
  /\ 0 <= m_score (maintainability r) <= 100
  /\ percentage (duplication r) = 0.
Proof.
  unfold analyzeCode. intros H.
  destruct (mapFiles projectPath _) as [l|] eqn:Hl; [|discriminate].
  apply mapFiles_metrics in Hl. inversion H; subst r; clear H. cbn.
  rewrite Forall_forall in Hl. split; [|split; [|reflexivity]].
  - apply score_of_percentages. apply Forall_forall. intros x Hx.
    apply in_map_iff in Hx. destruct Hx as (a & <- & Ha).
    destruct (Hl a Ha) as (content & -> & _).
    split; [apply Qlt_le_weak|]; apply complexity_range.
  - apply score_of_percentages. apply Forall_forall. intros x Hx.
    apply in_map_iff in Hx. destruct Hx as (a & <- & Ha).
    destruct (Hl a Ha) as (content & _ & ->). apply maintainability_range.
Qed.

(** X7: in every result of [analyzeCode] both scores and every per-file
    value lie between 0 and 100, the complexity values above 0. *)
Theorem analysis_scores_in_range (projectPath : string) (root : Listing)
        (r : AnalysisResult) :
  analyzeCode projectPath root = Resolved r ->
  0 <= c_score (complexity r) <= 100
  /\ 0 <= m_score (maintainability r) <= 100
  /\ Forall (fun d => 0 < cd_complexity d <= 100
                      /\ 0 <= cd_maintainability d <= 100)
            (c_details (complexity r))
  /\ Forall (fun d => 0 <= md_score d <= 100)
            (m_details (maintainability r)).
Proof.
  intros H. destruct (analysis_score_ranges _ _ _ H) as (Hc & Hm & _).
  split; [exact Hc|]. split; [exact Hm|].
  destruct (analyzeCode_Resolved _ _ _ H) as (l & Hl & -> & -> & _).
  apply mapFiles_metrics in Hl. rewrite Forall_forall in Hl. split.
  - apply Forall_forall. intros d Hd.
    apply in_map_iff in Hd. destruct Hd as (a & <- & Ha). cbn.
    destruct (Hl a Ha) as (content & -> & ->).
    split; [apply complexity_range | apply maintainability_range].
  - apply Forall_forall. intros d Hd.
    apply in_map_iff in Hd. destruct Hd as (a & <- & Ha). cbn.
    destruct (Hl a Ha) as (content & _ & ->). apply maintainability_range.
Qed.

Lemma analysis_scores_in_range_witness :
  exists r, analyzeCode "/repo" Samples.sampleRepo = Resolved r
            /\ 0 <= c_score (complexity r) <= 100
            /\ 0 <= m_score (maintainability r) <= 100.
Proof.
  eexists. split; [reflexivity|].
  destruct (analysis_scores_in_range "/repo" Samples.sampleRepo _ eq_refl)
    as (Hc & Hm & _).
  split; [exact Hc | exact Hm].
Defined.

(** X8: the two detail arrays of a result are aligned, with the same files
    in the same order and the same maintainability values, and each score
    is the rounded mean of the values listed in the details. *)
Theorem details_aligned (projectPath : string) (root : Listing)
        (r : AnalysisResult) :
  analyzeCode projectPath root = Resolved r ->
  map cd_file (c_details (complexity r))
  = map md_file (m_details (maintainability r))
  /\ map cd_maintainability (c_details (complexity r))
     = map md_score (m_details (maintainability r))
  /\ c_score (complexity r)
     = calculateOverallScore (map cd_complexity (c_details (complexity r)))
  /\ m_score (maintainability r)
     = calculateOverallScore (map md_score (m_details (maintainability r))).
Proof.
  unfold analyzeCode. intros H.
  destruct (mapFiles projectPath _) as [l|]; [|discriminate].
  inversion H; subst r; clear H. cbn. rewrite !map_map. cbn.
  repeat split.
Qed.

Lemma details_aligned_witness :
  exists r, analyzeCode "/repo" Samples.nested = Resolved r
            /\ map cd_file (c_details (complexity r))
               = map md_file (m_details (maintainability r)).
Proof.
  eexists. split; [reflexivity|].
  apply (details_aligned "/repo" Samples.nested). reflexivity.
Defined.

(** X24: a run that resolves lists every discovered file once in each of
    the two detail arrays: their lengths are the number of discovered
    files. *)
Theorem one_detail_per_discovered_file (projectPath : string)
        (root : Listing) (r : AnalysisResult) :
  analyzeCode projectPath root = Resolved r ->
  List.length (c_details (complexity r))
  = List.length (getAllFiles projectPath root recognized)
  /\ List.length (m_details (maintainability r))
     = List.length (getAllFiles projectPath root recognized).
Proof. apply details_cover_discovered. Qed.

Lemma one_detail_per_discovered_file_witness :
  exists r, analyzeCode "/repo" Samples.sampleRepo = Resolved r
            /\ List.length (c_details (complexity r)) = 4%nat
            /\ List.length (m_details (maintainability r)) = 4%nat.
Proof.
  eexists. split; [reflexivity|].
  apply (one_detail_per_discovered_file "/repo" Samples.sampleRepo).
  reflexivity.
Defined.

(** ** Overall score and recommendations (route.ts) *)

Lemma weighted_round_between (lo hi : Z) (r : AnalysisResult) :
  inject_Z lo <= Spec.weighted64 r <= inject_Z hi ->
  inject_Z lo <= Route.calculateOverallScore r <= inject_Z hi.
Proof. intros H. now apply Math_round_between. Qed.

(** X9: the overall score of every result of [analyzeCode] lies between 30
    and 100: duplication is reported as 0, which alone gives 30 points. *)
Theorem overall_score_of_analysis (projectPath : string) (root : Listing)
        (r : AnalysisResult) :
  analyzeCode projectPath root = Resolved r ->
  30 <= Route.calculateOverallScore r <= 100.
Proof.
  intros H. destruct (analysis_score_ranges _ _ _ H) as (Hc & Hm & Hd).
  apply (weighted_round_between 30 100).
  change (inject_Z 30) with 30. change (inject_Z 100) with 100.
  assert (Hp : 0 <= percentage (duplication r) <= 100)
    by (rewrite Hd; split; discriminate).
  split; [|now apply weighted64_range].
  unfold Spec.weighted64. rewrite Hd.
  replace (mul64 (sub64 100 (double 0)) (double (3 # 10))) with 30
    by (vm_compute; reflexivity).
  assert (W3 : 0 <= double (3 # 10)) by (vm_compute; discriminate).
  assert (W4 : 0 <= double (4 # 10)) by (vm_compute; discriminate).
  apply double_range in Hc, Hm. change (double 0) with 0 in Hc, Hm.
  pose proof (mul64_range _ _ _ _ W3 Hc) as A.
  pose proof (mul64_range _ _ _ _ W4 Hm) as B.
  replace (double (0 * double (3 # 10))) with 0 in A
    by (vm_compute; reflexivity).
  replace (double (0 * double (4 # 10))) with 0 in B
    by (vm_compute; reflexivity).
  pose proof (add64_range _ _ _ _ _ _ A B) as AB.
  replace (double (0 + 0)) with 0 in AB by (vm_compute; reflexivity).
  assert (T : 30 <= 30 <= 30) by (split; discriminate).
  pose proof (add64_range _ _ _ _ _ _ AB T) as S.
  replace (double (0 + 30)) with 30 in S by (vm_compute; reflexivity).
  apply S.
Qed.

Lemma overall_score_of_analysis_witness :
  exists r, analyzeCode "/repo" None = Resolved r
            /\ 30 <= Route.calculateOverallScore r <= 100
            /\ Route.calculateOverallScore r == 30.
Proof.
  eexists. split; [reflexivity|]. split; [|reflexivity].
  apply (overall_score_of_analysis "/repo" None). reflexivity.
Defined.

(** X10: for a result of [analyzeCode] the recommendations are the
    complexity message, if the complexity score is above 70, followed by
    the maintainability message, if the maintainability score is below 65;
    the duplication message is never given. *)
Theorem analysis_recommendations (projectPath : string) (root : Listing)
        (r : AnalysisResult) :
  analyzeCode projectPath root = Resolved r ->
  Route.generateRecommendations r
  = (if Route.Qlt_bool 70 (c_score (complexity r))
     then [Route.recComplexity] else [])
    ++ (if Route.Qlt_bool (m_score (maintainability r)) 65
        then [Route.recMaintainability] else [])
  /\ ~ In Route.recDuplication (Route.generateRecommendations r).
Proof.
  intros H.
  destruct (analyzeCode_Resolved _ _ _ H) as (l & _ & _ & Hm & Hd).
  assert (HF : Forall (fun d => md_issues d = [])
                      (m_details (maintainability r))).
  { rewrite Hm. apply Forall_forall. intros d Hd'.
    apply in_map_iff in Hd'. destruct Hd' as (f & <- & _). reflexivity. }
  assert (E : Route.generateRecommendations r
              = (if Route.Qlt_bool 70 (c_score (complexity r))
                 then [Route.recComplexity] else [])
                ++ (if Route.Qlt_bool (m_score (maintainability r)) 65
                    then [Route.recMaintainability] else [])).
  { unfold Route.generateRecommendations, Route.fileRecommendations.
    rewrite (filter_without_issues _ HF), Hd. cbn.
    destruct (Route.Qlt_bool 70 _), (Route.Qlt_bool _ 65); reflexivity. }
  split; [exact E|]. rewrite E.
  destruct (Route.Qlt_bool 70 _), (Route.Qlt_bool _ 65); cbn;
    intuition discriminate.
Qed.

Lemma analysis_recommendations_witness :
  exists r, analyzeCode "/repo" Samples.sampleRepo = Resolved r
            /\ ~ In Route.recDuplication (Route.generateRecommendations r).
Proof.
  eexists. split; [reflexivity|].
  apply (analysis_recommendations "/repo" Samples.sampleRepo). reflexivity.
Defined.

(** X11: when the three sub-scores lie between 0 and 100, so does the
    overall score, and it is an integer. *)
Theorem overall_score_in_range (r : AnalysisResult) :
  0 <= c_score (complexity r) <= 100 ->
  0 <= m_score (maintainability r) <= 100 ->
  0 <= percentage (duplication r) <= 100 ->
  0 <= Route.calculateOverallScore r <= 100
  /\ exists n : Z, Route.calculateOverallScore r = inject_Z n.
Proof.
  intros Hc Hm Hd. split; [|eexists; reflexivity].
  apply (weighted_round_between 0 100).
  change (inject_Z 0) with 0. change (inject_Z 100) with 100.
  now apply weighted64_range.
Qed.

Lemma overall_score_in_range_witness :
  0 <= Route.calculateOverallScore Samples.emptyResult <= 100.
Proof.
  apply (overall_score_in_range Samples.emptyResult);
    cbn; split; discriminate.
Defined.

Lemma Math_round_monotone (x y : Q) : x <= y -> Math_round x <= Math_round y.
Proof.
  intros H. unfold Math_round. rewrite <- Zle_Qle.
  apply Qfloor_resp_le. lra.
Qed.

(** X12: the overall score never drops when the complexity score or the
    maintainability score goes up or the duplication percentage goes down;
    a higher complexity score counts in favour of the project. *)
Theorem overall_score_monotone (r r' : AnalysisResult) :
  c_score (complexity r) <= c_score (complexity r') ->
  m_score (maintainability r) <= m_score (maintainability r') ->
  percentage (duplication r') <= percentage (duplication r) ->
  Route.calculateOverallScore r <= Route.calculateOverallScore r'.
Proof.
  intros Hc Hm Hd. apply Math_round_monotone.
  now apply weighted64_monotone.
Qed.

Lemma count_as_filter (ds : list MaintainabilityDetail) :
  forall a : nat,
  fold_left
    (fun (count : nat) detail =>
       (count + (if 0 <? List.length (md_issues detail) then 1 else 0))%nat)
    ds a
  = (a + List.length
           (filter (fun detail => (0 <? List.length (md_issues detail))%nat)
                   ds))%nat.
Proof.
  induction ds as [|d ds IH]; intros a; cbn [fold_left filter].
  - cbn. lia.
  - rewrite IH. destruct (0 <? List.length (md_issues d))%nat; cbn; lia.
Qed.

(** X13: the file-specific recommendations are as many as the files with
    an issue, up to three, and no more than six recommendations are ever
    given. *)
Theorem file_recommendations_count (r : AnalysisResult) :
  List.length (Route.fileRecommendations r)
  = Nat.min 3 (Route.countCriticalIssues r)
  /\ (List.length (Route.generateRecommendations r) <= 6)%nat.
Proof.
  assert (E : List.length (Route.fileRecommendations r)
              = Nat.min 3 (Route.countCriticalIssues r)).
  { unfold Route.fileRecommendations, Route.countCriticalIssues.
    rewrite length_map, length_firstn, count_as_filter. reflexivity. }
  split; [exact E|].
  unfold Route.generateRecommendations. rewrite length_app, E.
  pose proof (Nat.le_min_l 3 (Route.countCriticalIssues r)) as L.
  set (k := Nat.min 3 (Route.countCriticalIssues r)) in *. clearbody k.
  destruct (Route.Qlt_bool 70 _), (Route.Qlt_bool _ 65),
    (Route.Qlt_bool 15 _); cbn; lia.
Qed.

Lemma Qlt_bool_iff (a b : Q) : Route.Qlt_bool a b = true <-> a < b.
Proof.
  unfold Route.Qlt_bool. rewrite negb_true_iff. apply Qle_bool_false.
Qed.

Lemma Qlt_bool_false (a b : Q) : Route.Qlt_bool a b = false <-> b <= a.
Proof.
  unfold Route.Qlt_bool. rewrite negb_false_iff. apply Qle_bool_iff.
Qed.

(** X14: no recommendation is given exactly when the complexity score is
    at most 70, the maintainability score at least 65, the duplication
    percentage at most 15 and no file has an issue. *)
Theorem no_recommendation_iff (r : AnalysisResult) :
  Route.generateRecommendations r = []
  <-> c_score (complexity r) <= 70
      /\ 65 <= m_score (maintainability r)
      /\ percentage (duplication r) <= 15
      /\ Route.countCriticalIssues r = O.
Proof.
  assert (F : Route.fileRecommendations r = []
              <-> Route.countCriticalIssues r = O).
  { unfold Route.fileRecommendations, Route.countCriticalIssues.
    rewrite count_as_filter.
    destruct (filter _ (m_details (maintainability r))); cbn;
      split; intros H; try reflexivity; discriminate H. }
  unfold Route.generateRecommendations.
  rewrite <- !Qlt_bool_false, <- F.
  destruct (Route.Qlt_bool 70 _), (Route.Qlt_bool _ 65),
    (Route.Qlt_bool 15 _); cbn;
    (split; [intros H; try discriminate H; now repeat split
            | intros (H1 & H2 & H3 & H4); try discriminate; exact H4]).
Qed.

(** X15: every file-specific recommendation names a file of the details
    that has an issue and quotes its first issue; the text never falls back
    on a missing issue. *)
Theorem file_recommendation_quotes_first_issue (r : AnalysisResult)
        (s : string) :
  In s (Route.fileRecommendations r) ->
  exists d issue rest,
    In d (m_details (maintainability r))
    /\ md_issues d = issue :: rest
    /\ s = ("Improve maintainability in " ++ md_file d ++ ": " ++ issue)%string.
Proof.
  unfold Route.fileRecommendations. intros H.
  apply in_map_iff in H. destruct H as (d & <- & Hd).
  assert (Hf : In d (filter
                       (fun detail => (0 <? List.length (md_issues detail))%nat)
                       (m_details (maintainability r)))).
  { rewrite <- (firstn_skipn 3 (filter _ _)). apply in_or_app. now left. }
  apply filter_In in Hf. destruct Hf as [Hin Hlen].
  destruct (md_issues d) as [|issue rest] eqn:E; [discriminate Hlen|].
  exists d, issue, rest. repeat split; assumption.
Qed.

Lemma overall_score_monotone_witness :
  Route.calculateOverallScore Samples.flagged
  <= Route.calculateOverallScore Samples.improved.
Proof.
  apply (overall_score_monotone Samples.flagged Samples.improved);
    unfold Qle; cbn; lia.
Defined.

Lemma file_recommendation_quotes_first_issue_witness :
  exists d issue rest,
    In d (m_details (maintainability Samples.flagged))
    /\ md_issues d = issue :: rest
    /\ "Improve maintainability in /b.ts: no comments"
       = ("Improve maintainability in " ++ md_file d ++ ": " ++ issue)%string.
Proof.
  apply (file_recommendation_quotes_first_issue Samples.flagged).
  cbn. left. reflexivity.
Defined.

(** ** Discovery *)

Lemma string_app_assoc (a b c : string) :
  ((a ++ b) ++ c = a ++ (b ++ c))%string.
Proof. induction a as [|x a IH]; cbn; [reflexivity | now rewrite IH]. Qed.

Lemma string_length_app (a b : string) :
  String.length (a ++ b) = (String.length a + String.length b)%nat.
Proof. induction a as [|x a IH]; cbn; [reflexivity | now rewrite IH]. Qed.

Lemma fromLastDot_suffix (s e : string) :
  fromLastDot s = Some e -> exists pre, s = (pre ++ e)%string.
Proof.
  revert e. induction s as [|c r IH]; cbn; intros e H; [discriminate|].
  destruct (fromLastDot r) as [e'|].
  - inversion H; subst e'. destruct (IH e eq_refl) as [pre ->].
    now exists (String c pre).
  - destruct (Ascii.eqb c "."); [|discriminate].
    inversion H. now exists "".
Qed.

Lemma fromLastDot_ext (b ext : string) :
  In ext recognized -> fromLastDot (b ++ ext) = Some ext.
Proof.
  intros H. induction b as [|c b IH].
  - cbn in H. destruct H as [<-|[<-|[<-|[<-|[]]]]]; reflexivity.
  - cbn. now rewrite IH.
Qed.

Lemma recognized_length (ext : string) :
  In ext recognized -> (3 <= String.length ext)%nat.
Proof.
  intros H. cbn in H.
  destruct H as [<-|[<-|[<-|[<-|[]]]]]; cbn; lia.
Qed.

(** X16: a file name is taken for a source file exactly when it is a
    non-empty base name followed by [.ts], [.tsx], [.js] or [.jsx]; a file
    named just [.ts] is not. *)
Theorem recognized_name_iff (name : string) :
  includes recognized (extname name) = true
  <-> exists base ext, base <> "" /\ In ext recognized
                       /\ name = (base ++ ext)%string.
Proof.
  unfold includes. rewrite existsb_exists. split.
  - intros (ext & Hin & He). apply String.eqb_eq in He.
    pose proof (recognized_length _ Hin) as L.
    destruct name as [|c r]; cbn [extname] in He;
      [subst ext; cbn in L; lia|].
    destruct (String.eqb (String c r) "..");
      [subst ext; cbn in L; lia|].
    destruct (fromLastDot r) as [e|] eqn:E; [|subst ext; cbn in L; lia].
    subst e. destruct (fromLastDot_suffix _ _ E) as [pre ->].
    exists (String c pre), ext. repeat split; [discriminate | exact Hin].
  - intros (base & ext & Hb & Hin & ->).
    exists ext. split; [exact Hin|]. apply String.eqb_eq.
    destruct base as [|c b]; [congruence|].
    cbn [append extname].
    destruct (String.eqb (String c (b ++ ext)) "..") eqn:E.
    + apply String.eqb_eq in E. apply (f_equal String.length) in E.
      cbn in E. rewrite string_length_app in E.
      pose proof (recognized_length _ Hin). lia.
    + now rewrite fromLastDot_ext.
Qed.

Lemma getAllFiles_entry_reaches (extensions : list string) (e : Dirent) :
  forall dir entries f,
  In e entries -> In f (getAllFiles_entry extensions dir e) ->
  Spec.reaches extensions dir entries f.
Proof.
  induction e as [name data|name below IH|name|name]
    using Dirent_nested_ind; intros dir entries f He H.
  - cbn in H. destruct (includes extensions (extname name)) eqn:E;
      [|contradiction].
    destruct H as [<-|[]]. now apply Spec.reaches_file.
  - destruct (startsWith name ".") eqn:Hh.
    + rewrite getAllFiles_hidden in H by exact Hh. contradiction.
    + rewrite getAllFiles_directory in H by exact Hh.
      unfold getAllFiles in H. apply in_flat_map in H.
      destruct H as (e & Hin & Hf). rewrite Forall_forall in IH.
      apply (Spec.reaches_below _ _ _ name below); [exact He|exact Hh|].
      now apply (IH e Hin).
  - cbn in H. destruct (negb (startsWith name ".")); contradiction.
  - contradiction.
Qed.

Lemma discovered_reaches (dir : string) (entries : list Dirent)
      (extensions : list string) (f : Discovered) :
  In f (getAllFiles dir (Some entries) extensions) ->
  Spec.reaches extensions dir entries f.
Proof.
  unfold getAllFiles. intros H. apply in_flat_map in H.
  destruct H as (e & He & Hf).
  now apply (getAllFiles_entry_reaches extensions e).
Qed.

Lemma reaches_discovered (dir : string) (entries : list Dirent)
      (extensions : list string) (f : Discovered) :
  Spec.reaches extensions dir entries f ->
  In f (getAllFiles dir (Some entries) extensions).
Proof.
  induction 1 as [dir entries name data Hin E
                 |dir entries sub below f Hin Hh _ IH];
    unfold getAllFiles; apply in_flat_map.
  - exists (FileEnt name data). split; [exact Hin|].
    cbn. rewrite E. now left.
  - exists (DirEnt sub (Some below)). split; [exact Hin|].
    now rewrite getAllFiles_directory.
Qed.

(** X17: the files the walk returns are exactly the file entries with a
    listed extension that lie in the listing or below it through readable
    directories whose names do not start with a dot; an entry that is only
    below a hidden directory is not returned. *)
Theorem discovered_is_reachable (dir : string) (entries : list Dirent)
        (extensions : list string) (f : Discovered) :
  In f (getAllFiles dir (Some entries) extensions)
  <-> Spec.reaches extensions dir entries f.
Proof.
  split; [apply discovered_reaches | apply reaches_discovered].
Qed.

(** *** Paths below a normalized project path *)

Lemma string_app_nil (s : string) : (s ++ "" = s)%string.
Proof. induction s as [|c s IH]; cbn; [reflexivity | now rewrite IH]. Qed.

Lemma plainName_spec (s : string) :
  Spec.plainName s = true ->
  String.eqb s "" = false /\ String.eqb s "." = false
  /\ String.eqb s ".." = false /\ Spec.hasSlash s = false.
Proof.
  unfold Spec.plainName. rewrite !andb_true_iff, !negb_true_iff. tauto.
Qed.

Lemma segments_plain (s : string) :
  Spec.hasSlash s = false -> segments s = [s].
Proof.
  induction s as [|c s IH]; cbn; [reflexivity|].
  intros H. apply orb_false_iff in H. destruct H as [Hc Hs].
  rewrite Hc, (IH Hs). reflexivity.
Qed.

Lemma segments_plain_slash (s t : string) :
  Spec.hasSlash s = false ->
  segments (s ++ String "/" t) = s :: segments t.
Proof.
  induction s as [|c s IH]; cbn; [reflexivity|].
  intros H. apply orb_false_iff in H. destruct H as [Hc Hs].
  rewrite Hc, (IH Hs). reflexivity.
Qed.

Lemma segments_below (a : string) (rest : list string) :
  Spec.plainName a = true -> forallb Spec.plainName rest = true ->
  segments (a ++ Spec.absPath rest) = a :: rest.
Proof.
  revert a. induction rest as [|b rest IH]; intros a Ha Hr.
  - cbn. rewrite string_app_nil. apply segments_plain.
    now apply plainName_spec.
  - cbn in Hr. apply andb_true_iff in Hr. destruct Hr as [Hb Hr].
    cbn [Spec.absPath append].
    rewrite segments_plain_slash by now apply plainName_spec.
    now rewrite IH.
Qed.

Lemma normalize_steps (allow : bool) (segs stack : list string) :
  forallb Spec.plainName segs = true ->
  fold_left (normalizeStep allow) segs stack = rev segs ++ stack.
Proof.
  revert stack. induction segs as [|a segs IH]; intros stack H;
    [reflexivity|].
  cbn in H. apply andb_true_iff in H. destruct H as [Ha Hs].
  destruct (plainName_spec _ Ha) as (E1 & E2 & E3 & _).
  cbn [fold_left rev]. unfold normalizeStep at 2. rewrite E1, E2, E3.
  cbn [orb]. rewrite IH by exact Hs. now rewrite <- app_assoc.
Qed.

Lemma absPath_concat (a : string) (rest : list string) :
  Spec.absPath (a :: rest) = ("/" ++ String.concat "/" (a :: rest))%string.
Proof.
  revert a. induction rest as [|b rest IH]; intros a.
  - cbn. now rewrite string_app_nil.
  - cbn [Spec.absPath] in *. rewrite IH. reflexivity.
Qed.

Lemma absPath_app (xs ys : list string) :
  Spec.absPath (xs ++ ys) = (Spec.absPath xs ++ Spec.absPath ys)%string.
Proof.
  induction xs as [|x xs IH]; [reflexivity|].
  cbn [app Spec.absPath]. rewrite IH. cbn.
  now rewrite string_app_assoc.
Qed.

Lemma endsWithSlash_app (s t : string) :
  t <> "" -> endsWithSlash (s ++ t) = endsWithSlash t.
Proof.
  intros Ht. induction s as [|c s IH]; [reflexivity|].
  cbn [append endsWithSlash]. rewrite IH.
  destruct (s ++ t)%string eqn:E; [|reflexivity].
  destruct s; cbn in E; [congruence | discriminate].
Qed.

Lemma endsWithSlash_plain (s : string) :
  Spec.hasSlash s = false -> endsWithSlash s = false.
Proof.
  induction s as [|c s IH]; [reflexivity|]. cbn [Spec.hasSlash endsWithSlash].
  intros H. apply orb_false_iff in H. destruct H as [Hc Hs].
  destruct s; [exact Hc | now apply IH].
Qed.

Lemma endsWithSlash_absPath (segs : list string) :
  forallb Spec.plainName segs = true ->
  endsWithSlash (Spec.absPath segs) = false.
Proof.
  induction segs as [|a segs IH]; [reflexivity|]. intros H.
  cbn in H. apply andb_true_iff in H. destruct H as [Ha Hs].
  destruct (plainName_spec _ Ha) as (E1 & _ & _ & E4).
  destruct segs as [|b segs].
  - cbn [Spec.absPath]. rewrite string_app_nil.
    change ("/" ++ a)%string with (String "/" a).
    destruct a as [|c a]; [discriminate E1|].
    cbn [endsWithSlash]. now apply (endsWithSlash_plain (String c a)).
  - cbn [Spec.absPath] in *.
    rewrite <- string_app_assoc.
    rewrite endsWithSlash_app by discriminate. now apply IH.
Qed.

Lemma segments_slash (t : string) :
  segments (String "/" t) = "" :: segments t.
Proof. reflexivity. Qed.

Lemma prefix_slash (t : string) : prefix "/" (String "/" t) = true.
Proof.
  cbn. destruct (ascii_dec "/" "/"); [now destruct t | congruence].
Qed.

(** A normalized absolute path is left as it is. *)
Lemma normalize_absPath (segs : list string) :
  segs <> [] -> forallb Spec.plainName segs = true ->
  normalize (Spec.absPath segs) = Spec.absPath segs.
Proof.
  intros Hne Hp. destruct segs as [|a rest]; [congruence|].
  assert (Hp' := Hp). cbn [forallb] in Hp'. apply andb_true_iff in Hp'.
  destruct Hp' as [Ha Hr].
  destruct (plainName_spec _ Ha) as (E1 & _ & _ & _).
  pose proof (endsWithSlash_absPath _ Hp) as Hend.
  pose proof (absPath_concat a rest) as C.
  assert (S : segments (Spec.absPath (a :: rest)) = "" :: a :: rest).
  { cbn [Spec.absPath].
    change ("/" ++ a ++ Spec.absPath rest)%string
      with (String "/" (a ++ Spec.absPath rest)).
    rewrite segments_slash. f_equal. now apply segments_below. }
  remember (String.concat "/" (a :: rest)) as p eqn:Ep.
  remember (Spec.absPath (a :: rest)) as q eqn:Eq.
  unfold normalize. rewrite Hend.
  assert (Q1 : String.eqb q "" = false) by (rewrite C; reflexivity).
  assert (Q2 : prefix "/" q = true) by (rewrite C; apply prefix_slash).
  rewrite Q1, Q2. unfold normalizeString. rewrite S.
  change (fold_left (normalizeStep (negb true)) ("" :: a :: rest) [])
    with (fold_left (normalizeStep (negb true)) (a :: rest)
                    (normalizeStep (negb true) [] "")).
  replace (normalizeStep (negb true) [] "") with (@nil string)
    by reflexivity.
  rewrite normalize_steps by exact Hp. rewrite app_nil_r, rev_involutive.
  rewrite <- Ep.
  destruct (String.eqb p "") eqn:E.
  - apply String.eqb_eq in E. subst p.
    destruct a; [discriminate E1|]. destruct rest; discriminate E.
  - rewrite string_app_nil. symmetry. exact C.
Qed.

(** Joining a plain name to a normalized absolute path appends it. *)
Lemma join_absPath (segs : list string) (name : string) :
  segs <> [] -> forallb Spec.plainName segs = true ->
  Spec.plainName name = true ->
  join (Spec.absPath segs) name = Spec.absPath (segs ++ [name]).
Proof.
  intros Hne Hp Hn. destruct (plainName_spec _ Hn) as (E1 & _).
  assert (D : String.eqb (Spec.absPath segs) "" = false)
    by (destruct segs; [congruence | reflexivity]).
  assert (E : String.concat "/" [Spec.absPath segs; name]
              = Spec.absPath (segs ++ [name])).
  { rewrite absPath_app. cbn [Spec.absPath String.concat].
    now rewrite string_app_nil. }
  unfold join. cbn [filter]. rewrite D, E1. cbn [negb]. rewrite E.
  apply normalize_absPath.
  - destruct segs; discriminate.
  - rewrite forallb_app, Hp. cbn. now rewrite Hn.
Qed.

Lemma plainNames_directory (name : string) (below : list Dirent) :
  Spec.plainNames (DirEnt name (Some below)) = true ->
  Spec.plainName name = true /\ forallb Spec.plainNames below = true.
Proof.
  cbn [Spec.plainNames]. intros H. apply andb_true_iff in H.
  destruct H as [Hn Hb]. split; [exact Hn|].
  induction below as [|e es IH]; [reflexivity|].
  cbn [forallb]. apply andb_true_iff in Hb. destruct Hb as [He Hes].
  rewrite He. now apply IH.
Qed.

(** In a tree of plain names, what is reached from a normalized absolute
    path lies below it. *)
Lemma reaches_below_absPath (dir : string) (entries : list Dirent)
      (f : Discovered) :
  Spec.reaches recognized dir entries f ->
  forall segs, dir = Spec.absPath segs -> segs <> [] ->
  forallb Spec.plainName segs = true ->
  forallb Spec.plainNames entries = true ->
  exists more, more <> [] /\ fst f = Spec.absPath (segs ++ more).
Proof.
  induction 1 as [dir entries name data Hin E
                 |dir entries sub below f Hin Hh _ IH];
    intros segs -> Hne Hp Ht; rewrite forallb_forall in Ht.
  - exists [name]. split; [discriminate|]. cbn [fst].
    apply join_absPath; try assumption. exact (Ht _ Hin).
  - destruct (plainNames_directory _ _ (Ht _ Hin)) as [Hs Hb].
    destruct (IH (segs ++ [sub])) as (more & Hm & E).
    + now apply join_absPath.
    + destruct segs; discriminate.
    + rewrite forallb_app, Hp. cbn. now rewrite Hs.
    + exact Hb.
    + exists (sub :: more). split; [discriminate|].
      now rewrite E, <- app_assoc.
Qed.

Lemma substring_whole (s : string) : substring 0 (String.length s) s = s.
Proof. induction s as [|c s IH]; cbn; [reflexivity | now rewrite IH]. Qed.

Lemma prefix_app (p s : string) : prefix p (p ++ s) = true.
Proof.
  induction p as [|c p IH]; cbn; [now destruct s|].
  destruct (ascii_dec c c); [exact IH | congruence].
Qed.

Lemma replace_prefix (p rep s : string) :
  replace p rep (p ++ s) = (rep ++ s)%string.
Proof.
  assert (U : forall t, replace p rep t
                        = if prefix p t
                          then (rep ++ substring (String.length p)
                                  (String.length t - String.length p) t)%string
                          else match t with
                               | EmptyString => EmptyString
                               | String c r => String c (replace p rep r)
                               end)
    by (intros [|c r]; reflexivity).
  rewrite U, prefix_app. f_equal. clear U.
  rewrite string_length_app.
  replace (String.length p + String.length s - String.length p)%nat
    with (String.length s) by lia.
  induction p as [|c p IH]; cbn; [apply substring_whole | exact IH].
Qed.

(** X18: when the project path is a normalized absolute path other than
    the root and the names in the tree are plain, the file names of the
    details are the discovered paths with the project path taken off the
    front: each starts with a separator, and putting the project path back
    in front of them gives the discovered paths, in order. *)
Theorem detail_files_are_relative (segs : list string) (root : Listing)
        (r : AnalysisResult) :
  segs <> [] -> forallb Spec.plainName segs = true ->
  Spec.plainListing root = true ->
  analyzeCode (Spec.absPath segs) root = Resolved r ->
  map (fun d => (Spec.absPath segs ++ cd_file d)%string)
      (c_details (complexity r))
  = map fst (getAllFiles (Spec.absPath segs) root recognized)
  /\ Forall (fun d => exists rel, cd_file d = ("/" ++ rel)%string)
            (c_details (complexity r)).
Proof.
  intros Hne Hp Ht H. set (projectPath := Spec.absPath segs) in *.
  destruct (analyzeCode_Resolved _ _ _ H) as (l & Hl & Hc & _).
  apply mapFiles_files in Hl.
  assert (Hfiles : map cd_file (c_details (complexity r)) = map fa_file l)
    by (rewrite Hc, map_map; reflexivity).
  assert (R : forall f, In f (getAllFiles projectPath root recognized) ->
              exists rel, fst f = (projectPath ++ "/" ++ rel)%string
                          /\ replace projectPath "" (fst f)
                             = ("/" ++ rel)%string).
  { intros f Hf. destruct root as [entries|]; [|contradiction].
    apply discovered_reaches in Hf.
    destruct (reaches_below_absPath _ _ _ Hf segs eq_refl Hne Hp Ht)
      as (more & Hm & E).
    destruct more as [|a more]; [congruence|].
    rewrite absPath_app in E. cbn [Spec.absPath] in E.
    exists (a ++ Spec.absPath more)%string. split; [exact E|].
    rewrite E. exact (replace_prefix projectPath "" _). }
  split.
  - rewrite <- (map_map cd_file (fun x => (projectPath ++ x)%string)),
      Hfiles, Hl, map_map.
    apply map_ext_in. intros f Hf. destruct (R f Hf) as (rel & E1 & E2).
    now rewrite E2, E1.
  - apply (Forall_map cd_file (fun x => exists rel, x = ("/" ++ rel)%string)).
    rewrite Hfiles, Hl. apply Forall_map.
    apply Forall_forall. intros f Hf. destruct (R f Hf) as (rel & _ & E2).
    now exists rel.
Qed.

Lemma detail_files_are_relative_witness :
  exists r, analyzeCode "/repo" Samples.nested = Resolved r
            /\ map (fun d => ("/repo" ++ cd_file d)%string)
                   (c_details (complexity r))
               = ["/repo/a/z.ts"; "/repo/a.ts"].
Proof.
  eexists. split; [reflexivity|].
  apply (detail_files_are_relative ["repo"] Samples.nested);
    [discriminate | reflexivity | reflexivity | reflexivity].
Defined.

(** X19: a directory that is hidden or cannot be listed adds nothing and
    leaves the files found before and after it as they are, whatever it
    holds. *)
Theorem skipped_directory_leaves_siblings (dir name : string)
        (listing : Listing) (before after : list Dirent)
        (extensions : list string) :
  startsWith name "." = true \/ listing = None ->
  getAllFiles dir (Some (before ++ DirEnt name listing :: after)) extensions
  = getAllFiles dir (Some (before ++ after)) extensions.
Proof.
  intros H. unfold getAllFiles. rewrite !flat_map_app. f_equal.
  cbn [flat_map].
  replace (getAllFiles_entry extensions dir (DirEnt name listing))
    with (@nil Discovered); [reflexivity|].
  destruct H as [H | ->].
  - now rewrite getAllFiles_hidden.
  - cbn. now destruct (negb (startsWith name ".")).
Qed.

Lemma skipped_directory_leaves_siblings_witness :
  getAllFiles "/repo" Samples.nested recognized
  = getAllFiles "/repo"
      (Some [ FileEnt "README.md" (ReadOk (lit "# readme"));
              DirEnt "a" (Some [FileEnt "z.ts" (ReadOk Samples.branchText)]);
              FileEnt "a.ts" (ReadOk Samples.plainText) ])
      recognized.
Proof.
  apply (skipped_directory_leaves_siblings "/repo" ".git" _ []).
  left. reflexivity.
Defined.

(** ** Failure of a run *)

(** X20: a run is rejected exactly when one of the discovered files cannot
    be read; files that are not discovered (other extensions, hidden or
    unreadable directories) never make it fail. *)
Theorem rejected_iff_unreadable (projectPath : string) (root : Listing) :
  (exists err, analyzeCode projectPath root = Rejected err)
  <-> exists path err,
        In (path, ReadThrows err) (getAllFiles projectPath root recognized).
Proof. apply analyzeCode_Rejected. Qed.

(** X21: the run is rejected with the error of the first discovered file
    that cannot be read; the files after it are not looked at. *)
Theorem rejection_is_first_read_error (projectPath : string)
        (root : Listing) (readable : list Discovered) (path err : string)
        (rest : list Discovered) :
  getAllFiles projectPath root recognized
  = readable ++ (path, ReadThrows err) :: rest ->
  Forall (fun f => exists content, snd f = ReadOk content) readable ->
  analyzeCode projectPath root = Rejected err.
Proof.
  intros E HF. unfold analyzeCode. rewrite E. clear E.
  replace (mapFiles projectPath (readable ++ (path, ReadThrows err) :: rest))
    with (@Rejected (list FileAnalysis) err); [reflexivity|].
  induction HF as [|f fs [content Hc] _ IH]; [reflexivity|].
  cbn. unfold analyzeFile. rewrite Hc. now rewrite <- IH.
Qed.

Lemma rejection_is_first_read_error_witness :
  analyzeCode "/repo" Samples.oneUnreadable
  = Rejected "EACCES: permission denied, open '/repo/b.ts'".
Proof.
  apply (rejection_is_first_read_error "/repo" Samples.oneUnreadable
           [("/repo/a.ts", ReadOk Samples.plainText)] "/repo/b.ts" _ []).
  - reflexivity.
  - repeat constructor. now exists Samples.plainText.
Defined.

(** ** Adding to the end of a text *)

Lemma tail_paren_LF (u : jsString) :
  Spec.found (str (lit "(") (star isWhiteSpace (u ++ [LF])))
  = Spec.found (str (lit "(") (star isWhiteSpace u)).
Proof.
  induction u as [|a u IH]; [reflexivity|].
  cbn [app star]. destruct (isWhiteSpace a); [exact IH|].
  cbn. destruct (a =? 40)%N; reflexivity.
Qed.

Lemma str_then_append_LF (tail : matcher) (kw : jsString) :
  ~ In LF kw ->
  (forall u, Spec.found (tail (u ++ [LF])) = Spec.found (tail u)) ->
  forall u, Spec.found (andThen (str kw) tail (u ++ [LF]))
            = Spec.found (andThen (str kw) tail u).
Proof.
  intros Hkw Ht. unfold andThen.
  induction kw as [|k kw IH]; intros u; [apply Ht|].
  destruct u as [|c r]; cbn [app str].
  - destruct (N.eqb_spec LF k) as [E|_]; [|reflexivity].
    elim Hkw. now left.
  - destruct (c =? k)%N; [|reflexivity].
    apply IH. intros I. apply Hkw. now right.
Qed.

Lemma keywordParen_append_LF (kw : string) (u : jsString) :
  ~ In LF (lit kw) ->
  Spec.found (keywordParen kw (u ++ [LF])) = Spec.found (keywordParen kw u).
Proof.
  intros H. unfold keywordParen.
  apply str_then_append_LF; [exact H | apply tail_paren_LF].
Qed.

Lemma occurrences_append_LF (kw : string) (content : jsString) :
  ~ In LF (lit kw) -> lit kw <> [] ->
  Spec.occurrences kw (content ++ [LF]) = Spec.occurrences kw content.
Proof.
  intros H Hne. unfold Spec.occurrences.
  rewrite positions_app
    by (intros u _; now apply keywordParen_append_LF).
  cbn [Spec.positions].
  pose proof (keywordParen_append_LF kw [] H) as E. cbn [app] in E.
  assert (N0 : keywordParen kw [] = None).
  { unfold keywordParen, andThen. destruct (lit kw); [congruence|reflexivity]. }
  rewrite N0 in E. destruct (keywordParen kw [LF]); [discriminate E|]. lia.
Qed.

Lemma baseComplexity_append_LF (content : jsString) :
  baseComplexity (content ++ [LF]) = baseComplexity content.
Proof.
  rewrite !baseComplexity_occurrences.
  rewrite !occurrences_append_LF; try reflexivity; try discriminate;
    cbn; intuition discriminate.
Qed.

Lemma split_append_LF (content : jsString) :
  List.length (split (content ++ [LF])) = S (List.length (split content)).
Proof.
  induction content as [|c r IH]; [reflexivity|].
  cbn [app]. destruct (c =? LF)%N eqn:E.
  - cbn [split]. rewrite E. cbn [List.length]. now rewrite IH.
  - now rewrite !split_cons_length.
Qed.

Lemma quotient_more_lines (c n : nat) :
  (0 < n)%nat -> (0 < c)%nat ->
  ofNat c / ofNat (S n) * 100 < ofNat c / ofNat n * 100.
Proof.
  intros Hn Hc. pose proof (ofNat_pos n Hn) as Pn.
  pose proof (ofNat_pos c Hc) as Pc.
  assert (Ps : 0 < ofNat (S n)) by (apply ofNat_pos; lia).
  assert (Q0 : 0 < ofNat c / ofNat n) by (apply Qlt_shift_div_l; lra).
  assert (E : ofNat c / ofNat n * ofNat n == ofNat c)
    by (field; intros H; rewrite H in Pn; discriminate).
  assert (ofNat c / ofNat (S n) < ofNat c / ofNat n); [|lra].
  apply Qlt_shift_div_r; [exact Ps|]. rewrite ofNat_S.
  setoid_replace (ofNat c / ofNat n * (ofNat n + 1))
    with (ofNat c / ofNat n * ofNat n + ofNat c / ofNat n) by ring.
  lra.
Qed.

(** X22: a line feed added at the end of a text never raises its
    complexity, and lowers it when it was below the cap: blank lines dilute
    the score. *)
Theorem blank_line_dilutes_complexity (content : jsString) :
  calculateBasicComplexity (content ++ [LF])
  <= calculateBasicComplexity content
  /\ (calculateBasicComplexity content < 100 ->
      calculateBasicComplexity (content ++ [LF])
      < calculateBasicComplexity content).
Proof.
  unfold calculateBasicComplexity, Math_min. cbv zeta.
  rewrite split_append_LF, baseComplexity_append_LF.
  assert (S1 : ofNat (baseComplexity content)
               / ofNat (S (List.length (split content))) * 100
               < ofNat (baseComplexity content)
                 / ofNat (List.length (split content)) * 100).
  { apply quotient_more_lines; [apply lineCount_pos|].
    unfold baseComplexity. lia. }
  split.
  - apply Q.min_le_compat_l. now apply Qlt_le_weak.
  - intros Hcap. apply Q.min_lt_iff in Hcap.
    destruct Hcap as [Hcap|Hcap]; [discriminate Hcap|].
    apply Q.min_glb_lt.
    + eapply Qle_lt_trans; [apply Q.le_min_r|]. lra.
    + eapply Qle_lt_trans; [apply Q.le_min_r|]. exact S1.
Qed.

(** X23: writing [if(] at the end of any text whose complexity is below
    the cap strictly raises its complexity. *)
Theorem appended_if_raises_complexity (content : jsString) :
  calculateBasicComplexity content < 100 ->
  calculateBasicComplexity content
  < calculateBasicComplexity (content ++ lit "if(").
Proof. apply one_more_if_raises_complexity. Qed.

Lemma appended_if_raises_complexity_witness :
  calculateBasicComplexity Samples.plainText == 25
  /\ calculateBasicComplexity (Samples.plainText ++ lit "if(") == 50
  /\ calculateBasicComplexity Samples.plainText
     < calculateBasicComplexity (Samples.plainText ++ lit "if(").
Proof.
  do 2 (split; [reflexivity|]).
  apply (appended_if_raises_complexity Samples.plainText). reflexivity.
Defined.
